(** * TGEQuizLit: the quiz core of [quizLit.py]

    A shallow embedding of the question selector, the scorer and the
    session handlers of the Streamlit quiz, with the properties that the
    specification states about them.

    Conventions of the embedding.
    - Python integers are [Z]; lengths, list positions and the two
      counters that only ever grow from zero are [nat].
    - A Python float is a binary64: a rational that the format holds, or
      an infinity. The scorer computes in it, with every result rounded to
      nearest, ties to even. The selector's one product, [N * 0.6] under
      [int], is taken over the rationals; a section below checks against
      the rounded product that up to a thousand questions both give the
      same number.
    - [random] is an explicit generator state threaded through the calls,
      and the messages passed to [st.error] are collected in order.
    - The two SQLite files are an input: a file system maps a path to what
      [load_questions] finds there. *)

From Stdlib Require Import ZArith QArith Qround Lia Lqa.
From stdpp Require Import base option list strings.

Local Open Scope Z_scope.

(** ** Configuration *)

Module Config.
Definition SPECIFIC_QUESTIONS_RATIO : Q := 6 # 10.
Definition EXCELLENT_THRESHOLD : Z := 70.
Definition GOOD_THRESHOLD : Z := 50.
End Config.

Module DatabasePath.
Definition SPECIFIC_QUESTIONS : string := "questoesEspecificas.db".
Definition GENERAL_QUESTIONS : string := "questoesGerais.db".
End DatabasePath.

(** ** Data model *)

Record Question := mkQuestion {
  id : Z;
  numero : Z;
  enunciado : string;
  alternativa_a : string;
  alternativa_b : string;
  alternativa_c : string;
  alternativa_d : string;
  fonte : string;
  gabarito : string
}.

#[export] Instance Question_eq_dec : EqDecision Question.
Proof. solve_decision. Defined.

Inductive PerformanceLevel := EXCELLENT | GOOD | NEEDS_IMPROVEMENT.

#[export] Instance PerformanceLevel_eq_dec : EqDecision PerformanceLevel.
Proof. solve_decision. Defined.

(** ** Python primitives used by the program *)

(** [x[:k]]: a negative bound counts from the end of the list. *)
Definition slice_to {A} (k : Z) (x : list A) : list A :=
  if k <? 0 then take (length x - Z.to_nat (- k)) x
  else take (Z.to_nat k) x.

(** [int(x)] on a float truncates toward zero. *)
Definition int (x : Q) : Z := Z.quot (Qnum x) (Z.pos (Qden x)).

(** The generator: the raw draws it is going to produce, in order.
    [randbelow n] reduces the next draw into [0, n). *)
Definition Rng := list nat.

Definition randbelow (n : nat) (g : Rng) : nat * Rng :=
  match g with
  | [] => (0%nat, [])
  | r :: g' => ((r mod n)%nat, g')
  end.

(** [x[i], x[j] = x[j], x[i]] *)
Definition swap {A} (i j : nat) (x : list A) : list A :=
  match x !! i, x !! j with
  | Some a, Some b => <[j:=a]> (<[i:=b]> x)
  | _, _ => x
  end.

(** [random.shuffle]: for i from len(x)-1 down to 1, exchange x[i] with
    x[randbelow(i+1)]. [shuffle_from i] runs the loop from index [i]. *)
Fixpoint shuffle_from {A} (i : nat) (x : list A) (g : Rng) : list A * Rng :=
  match i with
  | O => (x, g)
  | S i' =>
      let '(j, g') := randbelow (S i) g in
      shuffle_from i' (swap i j x) g'
  end.

Definition shuffle {A} (x : list A) (g : Rng) : list A * Rng :=
  shuffle_from (length x - 1) x g.

(** ** Binary64

    Round to nearest, ties to even. A double is m × 2^e with m below 2^53
    and e from -1074 up; [exponent] is the e of the double nearest to p/q
    before overflow is looked at, [mantissa] the nearest integer to
    num/den with ties to the even one. *)

Module Binary64.
Definition exponent (p q : positive) : Z :=
  let k := Z.log2 (Z.pos p) - Z.log2 (Z.pos q) in
  let above :=
    if 0 <=? k then Z.pos q * 2 ^ k <=? Z.pos p
    else Z.pos q <=? Z.pos p * 2 ^ (- k) in
  Z.max (if above then k - 52 else k - 53) (-1074).

Definition mantissa (num den : Z) : Z :=
  let m0 := num / den in
  match 2 * (num mod den) ?= den with
  | Lt => m0
  | Gt => m0 + 1
  | Eq => if Z.even m0 then m0 else m0 + 1
  end.

Definition round_pos (p q : positive) : Q :=
  let e := exponent p q in
  Qred (if 0 <=? e
        then inject_Z (mantissa (Z.pos p) (Z.pos q * 2 ^ e) * 2 ^ e)
        else mantissa (Z.pos p * 2 ^ (- e)) (Z.pos q) # Z.to_pos (2 ^ (- e))).

Definition round (x : Q) : Q :=
  match Qnum x with
  | 0 => 0%Q
  | Z.pos p => round_pos p (Qden x)
  | Z.neg p => (- round_pos p (Qden x))%Q
  end.

(** A double: a value the format holds, or an infinity. The sign of a
    zero is not kept, no comparison seeing it, and the program has no way
    to a NaN. *)
Inductive float :=
| Finite (x : Q)
| Infinity (negative : bool).

(** The double nearest to x: from 2^1024 on the result is infinite. *)
Definition nearest (x : Q) : float :=
  let r := round x in
  if Qle_bool (inject_Z (2 ^ 1024)) r then Infinity false
  else if Qle_bool r (- inject_Z (2 ^ 1024)) then Infinity true
  else Finite r.

(** An operation on integers that returns or raises. *)
Inductive ArithmeticError := OverflowError | ZeroDivisionError.

Inductive Arith (A : Type) :=
| Value (a : A)
| Raises (e : ArithmeticError).
Arguments Value {A} a.
Arguments Raises {A} e.

(** [a / b] on two ints: the quotient correctly rounded, OverflowError
    where it is too large for a float, ZeroDivisionError for b = 0. *)
Definition truediv (a b : Z) : Arith float :=
  if b =? 0 then Raises ZeroDivisionError
  else
    match nearest (inject_Z a / inject_Z b) with
    | Finite x => Value (Finite x)
    | Infinity _ => Raises OverflowError
    end.

(** [x * y] for a float x and a positive double y. *)
Definition mul (x : float) (y : Q) : float :=
  match x with
  | Finite a => nearest (a * y)
  | Infinity negative => Infinity negative
  end.

(** [x >= n] for a float x and an int n. *)
Definition ge_int (x : float) (n : Z) : bool :=
  match x with
  | Finite a => Qle_bool (inject_Z n) a
  | Infinity negative => negb negative
  end.

(** [int(total_questions * 0.6)] with the literal, the converted integer
    and the product each rounded. *)
Definition num_specific (total_questions : Z) : Z :=
  int (round (round (inject_Z total_questions) *
              round Config.SPECIFIC_QUESTIONS_RATIO)).
End Binary64.

(** ** The runtime around the handlers

    What a handler can touch besides the session: the generator and the
    error boxes shown on the page. *)

Record Env := mkEnv {
  rng : Rng;
  shown : list string
}.

Definition Run (A : Type) : Type := Env -> A * Env.

#[export] Instance Run_ret : MRet Run := fun A (a : A) e => (a, e).

#[export] Instance Run_bind : MBind Run :=
  fun A B (k : A -> Run B) (c : Run A) e => let '(a, e') := c e in k a e'.

Definition st_error (msg : string) : Run unit :=
  fun e => (tt, {| rng := rng e; shown := shown e ++ [msg] |}).

Definition random_shuffle {A} (x : list A) : Run (list A) :=
  fun e => let '(x', g') := shuffle x (rng e) in
           (x', {| rng := g'; shown := shown e |}).

(** ** Question store *)

(** What the loader can find at a path. *)
Inductive Database :=
| Absent
| Unreadable (e : string)
| Table (rows : list Question).

Definition FileSystem := string -> Database.

Module DatabaseManager.
Definition load_questions (fs : FileSystem) (database_path : string)
  : Run (list Question) :=
  match fs database_path with
  | Absent =>
      st_error ("Banco de dados não encontrado: " +:+ database_path) ;;
      mret []
  | Table rows => mret rows
  | Unreadable e =>
      st_error ("Erro ao carregar questões: " +:+ e) ;;
      mret []
  end.
End DatabaseManager.

(** The rows a path yields, whatever is shown on the way. *)
Definition pool (fs : FileSystem) (database_path : string) : list Question :=
  match fs database_path with
  | Table rows => rows
  | _ => []
  end.

(** ** Question selector *)

Definition nonempty {A} (x : list A) : bool :=
  match x with [] => false | _ => true end.

Module QuestionManager.
Definition prepare_questions (fs : FileSystem) (total_questions : Z)
  : Run (list Question) :=
  specific_questions ←
    DatabaseManager.load_questions fs DatabasePath.SPECIFIC_QUESTIONS;
  general_questions ←
    DatabaseManager.load_questions fs DatabasePath.GENERAL_QUESTIONS;
  if negb (nonempty specific_questions) && negb (nonempty general_questions)
  then
    st_error "Nenhuma questão encontrada nos bancos de dados!" ;;
    mret []
  else
    let available_questions := [] in
    '(specific_questions, available_questions) ←
      (if nonempty specific_questions then
         specific_questions ← random_shuffle specific_questions;
         let num_specific :=
           int (inject_Z total_questions * Config.SPECIFIC_QUESTIONS_RATIO) in
         mret (specific_questions,
              available_questions ++ slice_to num_specific specific_questions)
       else mret (specific_questions, available_questions));
    '(general_questions, available_questions) ←
      (if nonempty general_questions then
         general_questions ← random_shuffle general_questions;
         let num_general :=
           total_questions - Z.of_nat (length available_questions) in
         if 0 <? num_general then
           mret (general_questions,
                available_questions ++ slice_to num_general general_questions)
         else mret (general_questions, available_questions)
       else mret (general_questions, available_questions));
    available_questions ←
      (if Z.of_nat (length available_questions) <? total_questions then
         let all_questions := specific_questions ++ general_questions in
         all_questions ← random_shuffle all_questions;
         mret (slice_to total_questions all_questions)
       else mret available_questions);
    available_questions ← random_shuffle available_questions;
    mret available_questions.
End QuestionManager.

(** ** Scorer *)

Module PerformanceEvaluator.
Definition evaluate_performance (correct_answers total_questions : Z)
  : Binary64.Arith (Binary64.float * PerformanceLevel * string) :=
  if total_questions =? 0 then
    Binary64.Value
      (Binary64.Finite 0, NEEDS_IMPROVEMENT, "Nenhuma questão respondida")
  else
    match Binary64.truediv correct_answers total_questions with
    | Binary64.Raises e => Binary64.Raises e
    | Binary64.Value quotient =>
        let percentage := Binary64.mul quotient 100 in
        if Binary64.ge_int percentage Config.EXCELLENT_THRESHOLD then
          Binary64.Value
            (percentage, EXCELLENT, "🎉 Parabéns! Excelente desempenho!")
        else if Binary64.ge_int percentage Config.GOOD_THRESHOLD then
          Binary64.Value
            (percentage, GOOD, "👍 Bom trabalho! Continue estudando!")
        else
          Binary64.Value
            (percentage, NEEDS_IMPROVEMENT,
             "📚 Continue estudando para melhorar!")
    end.
End PerformanceEvaluator.

(** ** Session *)

(** One entry of [user_answers]. *)
Record AnswerRecord := mkAnswerRecord {
  question : Question;
  user_answer : string;
  correct_answer : string;
  is_correct : bool
}.

(** The keys of [st.session_state]. *)
Record SessionState := mkSessionState {
  quiz_started : bool;
  questions : list Question;
  current_question : nat;
  correct_answers : nat;
  user_answers : list AnswerRecord;
  quiz_finished : bool;
  question_answered : bool;
  last_user_answer : option string;
  last_answer_correct : option bool
}.

(** A handler either returns or raises. The only exception the session
    handlers can raise is the one of a list lookup out of range. *)
Inductive Exception := IndexError.

Inductive Result (A : Type) :=
| Returns (a : A)
| Raises (e : Exception).
Arguments Returns {A} a.
Arguments Raises {A} e.

(** [initialize_session_state]: [None] is a session without any key yet;
    the keys are only ever created together, so a session that has one has
    them all and is left as it is. *)
Definition initialize_session_state (st : option SessionState) : SessionState :=
  match st with
  | Some s => s
  | None =>
      {| quiz_started := false;
         questions := [];
         current_question := 0;
         correct_answers := 0;
         user_answers := [];
         quiz_finished := false;
         question_answered := false;
         last_user_answer := None;
         last_answer_correct := None |}
  end.

Definition reset_quiz (s : SessionState) : SessionState :=
  {| quiz_started := false;
     questions := [];
     current_question := 0;
     correct_answers := 0;
     user_answers := [];
     quiz_finished := false;
     question_answered := false;
     last_user_answer := None;
     last_answer_correct := None |}.

Definition start_quiz (fs : FileSystem) (total_questions : Z) (s : SessionState)
  : Run SessionState :=
  questions ← QuestionManager.prepare_questions fs total_questions;
  if negb (nonempty questions) then
    st_error "Não foi possível carregar as questões. Verifique se os bancos de dados estão disponíveis." ;;
    mret s
  else
    mret {| quiz_started := true;
            questions := questions;
            current_question := 0;
            correct_answers := 0;
            user_answers := [];
            quiz_finished := false;
            question_answered := false;
            last_user_answer := None;
            last_answer_correct := None |}.

Definition answer_question (selected_answer : string) (s : SessionState)
  : Result SessionState :=
  if quiz_finished s || question_answered s then Returns s
  else
    match questions s !! current_question s with
    | None => Raises IndexError
    | Some current_q =>
        let is_correct := String.eqb selected_answer (gabarito current_q) in
        Returns
          {| quiz_started := quiz_started s;
             questions := questions s;
             current_question := current_question s;
             correct_answers :=
               if is_correct then (correct_answers s + 1)%nat
               else correct_answers s;
             user_answers :=
               user_answers s ++
                 [ {| question := current_q;
                      user_answer := selected_answer;
                      correct_answer := gabarito current_q;
                      is_correct := is_correct |} ];
             quiz_finished := quiz_finished s;
             question_answered := true;
             last_user_answer := Some selected_answer;
             last_answer_correct := Some is_correct |}
    end.

Definition next_question (s : SessionState) : SessionState :=
  let current_question := (current_question s + 1)%nat in
  {| quiz_started := quiz_started s;
     questions := questions s;
     current_question := current_question;
     correct_answers := correct_answers s;
     user_answers := user_answers s;
     quiz_finished :=
       if (length (questions s) <=? current_question)%nat then true
       else quiz_finished s;
     question_answered := false;
     last_user_answer := None;
     last_answer_correct := None |}.

(** ** The page

    [main] picks one screen from the session, and each screen offers only
    some of the handlers. *)

Inductive Screen := InitialScreen | FinalResults | QuestionScreen.

Definition main (s : SessionState) : Screen :=
  if negb (quiz_started s) then InitialScreen
  else if quiz_finished s then FinalResults
  else QuestionScreen.

(** The "Próxima Questão" button of [show_question_screen]: the screen
    stops early without questions, looks the current question up, and
    draws the button only after the question was answered. Pressing a
    button that is not on the page does nothing. *)
Definition press_next_question (s : SessionState) : SessionState :=
  match main s with
  | QuestionScreen =>
      if negb (nonempty (questions s)) then s
      else
        match questions s !! current_question s with
        | None => s
        | Some _ => if question_answered s then next_question s else s
        end
  | _ => s
  end.

(** ** Vocabulary of the properties *)

(** [int(total_questions * 0.6)] *)
Definition num_specific (total_questions : Z) : Z :=
  int (inject_Z total_questions * Config.SPECIFIC_QUESTIONS_RATIO).

(** The ratio-based selection, [available_questions] as it stands when the
    program tests whether it is short: the head of the shuffled specific
    pool followed by what is still missing from the shuffled general pool. *)
Definition ratio_draw (total_questions : Z) (specific general : list Question)
  : list Question :=
  let picked := slice_to (num_specific total_questions) specific in
  let num_general := total_questions - Z.of_nat (length picked) in
  picked ++ (if 0 <? num_general then slice_to num_general general else []).

(** The size of the ratio-based selection as the specification words it:
    floor(N×0.6) from the specific pool, the remainder from the general
    pool, each capped at the size of its pool. *)
Definition ratio_draw_size (N : Z) (specific general : nat) : Z :=
  let from_specific :=
    Z.min (Qfloor (inject_Z N * Config.SPECIFIC_QUESTIONS_RATIO))
          (Z.of_nat specific) in
  from_specific + Z.min (N - from_specific) (Z.of_nat general).


(** The value of [prepare_questions] as a function of the two pools and
    the generator alone. *)
Definition selection (N : Z) (specific general : list Question) (g : Rng)
  : list Question :=
  if negb (nonempty specific) && negb (nonempty general) then []
  else
    let '(specific', g1) := shuffle specific g in
    let '(general', g2) := shuffle general g1 in
    let drawn := ratio_draw N specific' general' in
    if Z.of_nat (length drawn) <? N then
      let '(all_questions, g3) := shuffle (specific' ++ general') g2 in
      (shuffle (slice_to N all_questions) g3).1
    else (shuffle drawn g2).1.

(** The sizes the start screen offers. *)
Definition offered_sizes : list Z := [10; 20; 30; 40; 50].

(** The four handlers as calls; a run of the session is a list of calls
    from a fresh session. [start_quiz] comes with the files and the
    generator it meets. A call that raises leaves the session as it was:
    the lookup in [answer_question] precedes every assignment. *)
Inductive Call :=
| StartQuiz (fs : FileSystem) (total_questions : Z) (e : Env)
| AnswerQuestion (selected_answer : string)
| NextQuestion
| ResetQuiz.

Definition perform (c : Call) (s : SessionState) : SessionState :=
  match c with
  | StartQuiz fs total_questions e => (start_quiz fs total_questions s e).1
  | AnswerQuestion selected_answer =>
      match answer_question selected_answer s with
      | Returns s' => s'
      | Raises _ => s
      end
  | NextQuestion => next_question s
  | ResetQuiz => reset_quiz s
  end.

Definition perform_all (cs : list Call) (s : SessionState) : SessionState :=
  foldl (fun s c => perform c s) s cs.

Definition reachable (s : SessionState) : Prop :=
  exists cs, s = perform_all cs (initialize_session_state None).

(** The position names a selected question while the quiz is under way. *)
Definition position_in_bounds (s : SessionState) : Prop :=
  quiz_started s = true -> quiz_finished s = false ->
  (current_question s < length (questions s))%nat.

(** Number of entries of the answer log flagged correct. *)
Definition count_correct (log : list AnswerRecord) : nat :=
  length (filter (fun r => is_correct r = true) log).

(** An entry of the answer log is sound when its flag says whether the
    submitted letter is the key of its question, and its correct letter is
    that key. *)
Definition record_sound (r : AnswerRecord) : Prop :=
  (is_correct r = true <-> user_answer r = gabarito (question r)) /\
  correct_answer r = gabarito (question r).

Definition log_consistent (s : SessionState) : Prop :=
  correct_answers s = count_correct (user_answers s) /\
  Forall record_sound (user_answers s).

(** ** The screens

    What each screen shows is kept as data: the values it computes, the
    buttons it draws and the lookups that can stop it. Titles, rules and
    column layout carry no decision and are left out; a formatted text is
    kept as the values that go into it. A screen that raises stops there:
    nothing below the raising line is drawn. *)

Inductive PageException :=
| PageIndexError
| AttributeError
| KeyError (key : string)
| ArithmeticError (e : Binary64.ArithmeticError).

Inductive Outcome (A : Type) :=
| Rendered (a : A)
| Stopped (e : PageException).
Arguments Rendered {A} a.
Arguments Stopped {A} e.

(** [Question.get_alternatives]: the dict, in insertion order. *)
Definition get_alternatives (q : Question) : list (string * string) :=
  [("a", alternativa_a q); ("b", alternativa_b q);
   ("c", alternativa_c q); ("d", alternativa_d q)]%string.

(** [d[key]] *)
Fixpoint getitem (d : list (string * string)) (key : string) : Outcome string :=
  match d with
  | [] => Stopped (KeyError key)
  | (k, v) :: d' => if String.eqb k key then Rendered v else getitem d' key
  end.

Definition get_button_style (letter : string) (current_q : Question)
  (user_answer : string) (is_answered : bool) : string :=
  if negb is_answered then "secondary"
  else if String.eqb letter (gabarito current_q) then "success"
  else if String.eqb letter user_answer &&
          negb (String.eqb letter (gabarito current_q)) then "error"
  else "secondary".

(** One answer button: its key [btn_<letter>_<current_question>], the mark
    its label starts with, the letter (shown in upper case) and the text
    of the alternative, its type and whether it is disabled. *)
Record AlternativeButton := mkAlternativeButton {
  button_key : string * nat;
  button_mark : option string;
  button_letter : string;
  button_text : string;
  button_type : string;
  button_disabled : bool
}.

(** The box under the question once it is answered. *)
Inductive Feedback :=
| Correto
| Incorreto (sua_resposta resposta_correta : string).

Record QuestionPage := mkQuestionPage {
  page_progress : Q;
  page_number : nat;
  page_total : nat;
  page_enunciado : string;
  page_fonte : string;
  page_feedback : option Feedback;
  page_alternatives : list AlternativeButton;
  page_next : bool
}.

Definition alternative_button (s : SessionState) (current_q : Question)
  (item : string * string) : AlternativeButton :=
  let '(letter, text) := item in
  let button_disabled := question_answered s in
  let button_key := (letter, current_question s) in
  let '(mark, button_type) :=
    if question_answered s then
      if String.eqb letter (gabarito current_q) then (Some "✅", "primary")
      else if bool_decide (Some letter = last_user_answer s) &&
              negb (bool_decide (last_answer_correct s = Some true))
      then (Some "❌", "secondary")
      else (None, "secondary")
    else (None, "secondary") in
  {| button_key := button_key; button_mark := mark; button_letter := letter;
     button_text := text; button_type := button_type;
     button_disabled := button_disabled |}.

(** [show_question_screen]; [Rendered None] is the early return with the
    "Nenhuma questão disponível!" box. *)
Definition show_question_screen (s : SessionState)
  : Outcome (option QuestionPage) :=
  if negb (nonempty (questions s)) then Rendered None
  else
    match questions s !! current_question s with
    | None => Stopped PageIndexError
    | Some current_q =>
        let total_questions := length (questions s) in
        let progress :=
          (inject_Z (Z.of_nat (current_question s + 1)) /
           inject_Z (Z.of_nat total_questions))%Q in
        let feedback :=
          if question_answered s then
            if bool_decide (last_answer_correct s = Some true)
            then Rendered (Some Correto)
            else
              match last_user_answer s with
              | Some a => Rendered (Some (Incorreto a (gabarito current_q)))
              | None => Stopped AttributeError
              end
          else Rendered None in
        match feedback with
        | Stopped e => Stopped e
        | Rendered feedback =>
            Rendered (Some
              {| page_progress := progress;
                 page_number := (current_question s + 1)%nat;
                 page_total := total_questions;
                 page_enunciado := enunciado current_q;
                 page_fonte := fonte current_q;
                 page_feedback := feedback;
                 page_alternatives :=
                   alternative_button s current_q <$> get_alternatives current_q;
                 page_next := question_answered s |})
        end
    end.

(** One entry of the detailed review. *)
Record ReviewEntry := mkReviewEntry {
  review_is_correct : bool;
  review_pergunta : string;
  review_sua_resposta : string * string;
  review_resposta_correta : string * string;
  review_fonte : string
}.

Definition review_entry (answer_data : AnswerRecord) : Outcome ReviewEntry :=
  let question := question answer_data in
  let user_answer := user_answer answer_data in
  let correct_answer := correct_answer answer_data in
  let is_correct := is_correct answer_data in
  match getitem (get_alternatives question) user_answer with
  | Stopped e => Stopped e
  | Rendered user_text =>
      match getitem (get_alternatives question) correct_answer with
      | Stopped e => Stopped e
      | Rendered correct_text =>
          Rendered
            {| review_is_correct := is_correct;
               review_pergunta := enunciado question;
               review_sua_resposta := (user_answer, user_text);
               review_resposta_correta := (correct_answer, correct_text);
               review_fonte := fonte question |}
      end
  end.

(** The loop over [user_answers]: it stops at the first entry that raises. *)
Fixpoint review (log : list AnswerRecord) : Outcome (list ReviewEntry) :=
  match log with
  | [] => Rendered []
  | answer_data :: log' =>
      match review_entry answer_data with
      | Stopped e => Stopped e
      | Rendered entry =>
          match review log' with
          | Stopped e => Stopped e
          | Rendered entries => Rendered (entry :: entries)
          end
      end
  end.

Inductive Box := BoxSuccess | BoxInfo | BoxWarning.

Record ResultsPage := mkResultsPage {
  results_corretas : nat * nat;
  results_percentual : Binary64.float;
  results_desempenho : string * string;
  results_message : Box * string;
  results_review : list ReviewEntry;
  results_restart : bool
}.

(** [show_final_results]; the restart button is the last thing drawn. *)
Definition show_final_results (s : SessionState) : Outcome ResultsPage :=
  let total_questions := length (questions s) in
  let correct_answers := correct_answers s in
  match PerformanceEvaluator.evaluate_performance
          (Z.of_nat correct_answers) (Z.of_nat total_questions) with
  | Binary64.Raises e => Stopped (ArithmeticError e)
  | Binary64.Value (percentage, level, message) =>
      let desempenho :=
        match level with
        | EXCELLENT => ("Excelente", "🎉")
        | GOOD => ("Bom", "👍")
        | NEEDS_IMPROVEMENT => ("ihh rapaz...", "📚")
        end%string in
      let box :=
        match level with
        | EXCELLENT => BoxSuccess
        | GOOD => BoxInfo
        | NEEDS_IMPROVEMENT => BoxWarning
        end in
      match review (user_answers s) with
      | Stopped e => Stopped e
      | Rendered entries =>
          Rendered
            {| results_corretas := (correct_answers, total_questions);
               results_percentual := percentage;
               results_desempenho := desempenho;
               results_message := (box, message);
               results_review := entries;
               results_restart := true |}
      end
  end.

(** ** What the user can do

    A press of a button that the page for the current session draws. The
    start button is on the initial screen, with one of the offered sizes
    selected; an answer button is on the question screen, enabled while
    the question is open; the restart button is on the results screen,
    when the screen got as far as drawing it. *)

Inductive Press :=
| PressStart (fs : FileSystem) (total_questions : Z) (e : Env)
| PressAlternative (letter : string)
| PressNext
| PressRestart.

Definition press_start (fs : FileSystem) (total_questions : Z) (e : Env)
  (s : SessionState) : SessionState :=
  match main s with
  | InitialScreen =>
      if bool_decide (total_questions ∈ [10; 20; 30; 40; 50])
      then (start_quiz fs total_questions s e).1
      else s
  | _ => s
  end.

Definition press_alternative (letter : string) (s : SessionState)
  : SessionState :=
  match main s with
  | QuestionScreen =>
      match show_question_screen s with
      | Rendered (Some page) =>
          match list_find (fun b => button_letter b = letter)
                          (page_alternatives page) with
          | Some (_, b) =>
              if button_disabled b then s
              else if negb (question_answered s) then
                match answer_question letter s with
                | Returns s' => s'
                | Raises _ => s
                end
              else s
          | None => s
          end
      | _ => s
      end
  | _ => s
  end.

Definition press_restart (s : SessionState) : SessionState :=
  match main s with
  | FinalResults =>
      match show_final_results s with
      | Rendered page => if results_restart page then reset_quiz s else s
      | Stopped _ => s
      end
  | _ => s
  end.

Definition press (p : Press) (s : SessionState) : SessionState :=
  match p with
  | PressStart fs total_questions e => press_start fs total_questions e s
  | PressAlternative letter => press_alternative letter s
  | PressNext => press_next_question s
  | PressRestart => press_restart s
  end.

Definition press_all (ps : list Press) (s : SessionState) : SessionState :=
  foldl (fun s p => press p s) s ps.

(** The sessions a user can bring about. *)
Definition page_reachable (s : SessionState) : Prop :=
  exists ps, s = press_all ps (initialize_session_state None).

(** The letters of the four alternatives. *)
Definition letters : list string := ["a"; "b"; "c"; "d"]%string.

(** The tier that the exact percentage 100×C/T would give, T positive. *)
Definition exact_tier (C T : Z) : PerformanceLevel :=
  if 7 * T <=? 10 * C then EXCELLENT
  else if T <=? 2 * C then GOOD
  else NEEDS_IMPROVEMENT.

(** What the four handlers keep true of a session, whatever the order
    they are called in. *)
Definition session_sound (s : SessionState) : Prop :=
  (correct_answers s <= length (user_answers s))%nat /\
  (length (user_answers s) <=
     current_question s + Nat.b2n (question_answered s))%nat /\
  (length (user_answers s) <= length (questions s))%nat /\
  (quiz_started s = true ->
   (quiz_finished s = true <->
    (length (questions s) <= current_question s)%nat)) /\
  (question_answered s = false ->
   last_user_answer s = None /\ last_answer_correct s = None) /\
  (question_answered s = true ->
   exists q a,
     questions s !! current_question s = Some q /\
     last_user_answer s = Some a /\
     last_answer_correct s = Some (String.eqb a (gabarito q)) /\
     last (user_answers s) =
       Some {| question := q; user_answer := a; correct_answer := gabarito q;
               is_correct := String.eqb a (gabarito q) |}).

(** What the presses keep true on top of that. *)
Definition page_sound (s : SessionState) : Prop :=
  (quiz_started s = false -> s = initialize_session_state None) /\
  (current_question s <= length (questions s))%nat /\
  question <$> user_answers s =
    take (current_question s + Nat.b2n (question_answered s)) (questions s) /\
  Forall (fun r => user_answer r ∈ letters) (user_answers s).

(** What [load_questions] shows for a path. *)
Definition load_messages (fs : FileSystem) (database_path : string)
  : list string :=
  match fs database_path with
  | Absent => ["Banco de dados não encontrado: " +:+ database_path]
  | Unreadable e => ["Erro ao carregar questões: " +:+ e]
  | Table _ => []
  end.

(** ** Sample data *)

Module Sample.
Definition q (i : Z) (key : string) : Question :=
  mkQuestion i i "enunciado" "alternativa a" "alternativa b"
    "alternativa c" "alternativa d" "fonte" key.

Definition bank (first : Z) (n : nat) (key : string) : list Question :=
  (fun i => q (first + Z.of_nat i) key) <$> seq 0 n.

Definition files (specific general : Database) : FileSystem :=
  fun path =>
    if decide (path = DatabasePath.SPECIFIC_QUESTIONS) then specific
    else if decide (path = DatabasePath.GENERAL_QUESTIONS) then general
    else Absent.

(** Two tables whose rows are numbered from 1, as SQLite numbers them. *)
Definition two_banks : FileSystem :=
  files (Table (bank 1 1 "a")) (Table (bank 1 1 "b")).

(** Eight specific and five general questions with distinct ids. *)
Definition full_banks : FileSystem :=
  files (Table (bank 1 8 "a")) (Table (bank 101 5 "b")).


Definition no_banks : FileSystem := files Absent Absent.

Definition env : Env := {| rng := [3; 1; 4; 1; 5; 9; 2; 6]%nat; shown := [] |}.

Definition fresh : SessionState := initialize_session_state None.

(** A quiz of two questions just started. *)
Definition started : SessionState :=
  perform (StartQuiz (files (Table (bank 1 2 "a")) Absent) 10 env) fresh.
End Sample.

(** ** More sample data *)

Module Scenario.

(** Eight specific questions; the general file cannot be read. *)
Definition only_specific : FileSystem :=
  Sample.files (Table (Sample.bank 1 8 "a"))
               (Unreadable "database disk image is malformed").

(** Three questions whose keys are a, b and an upper-case C. *)
Definition quiz3 : list Question :=
  [Sample.q 1 "a"; Sample.q 2 "b"; Sample.q 3 "C"].

Definition upper_case_key : FileSystem :=
  Sample.files (Table quiz3) (Table []).
End Scenario.

(** * Properties *)

(** ** The shuffle only rearranges *)

Section Shuffle.
Context {A : Type}.
Implicit Types x : list A.

Lemma insert_head_perm x j a b :
  x !! j = Some b -> b :: <[j:=a]> x ≡ₚ a :: x.
Proof.
  revert j. induction x as [|h t IH]; intros [|j] Hj; simplify_eq/=.
  - apply perm_swap.
  - rewrite (perm_swap h b), (IH _ Hj). apply perm_swap.
Qed.

Lemma swap_perm i j x : swap i j x ≡ₚ x.
Proof.
  unfold swap.
  destruct (x !! i) as [a|] eqn:Hi; [|done].
  destruct (x !! j) as [b|] eqn:Hj; [|done].
  revert i j Hi Hj. induction x as [|h t IH]; intros [|i] [|j] Hi Hj;
    simplify_eq/=; try done.
  - by apply insert_head_perm.
  - by apply insert_head_perm.
  - f_equiv. by apply IH.
Qed.

Lemma shuffle_from_perm i x g : (shuffle_from i x g).1 ≡ₚ x.
Proof.
  revert x g. induction i as [|i IH]; intros x g; [done|].
  cbn [shuffle_from]. destruct (randbelow (S (S i)) g) as [j g'].
  rewrite IH. apply swap_perm.
Qed.

Lemma shuffle_perm x g : (shuffle x g).1 ≡ₚ x.
Proof. apply shuffle_from_perm. Qed.
End Shuffle.

(** ** The loader *)

Lemma load_questions_run fs p e :
  exists e', DatabaseManager.load_questions fs p e = (pool fs p, e')
    /\ rng e' = rng e /\ exists msgs, shown e' = shown e ++ msgs.
Proof.
  unfold DatabaseManager.load_questions, pool.
  destruct (fs p); cbn; eexists; (split; [reflexivity|]); cbn;
    (split; [done|]); eauto.
  exists []. by rewrite app_nil_r.
Qed.

(** ** Slices *)

Lemma slice_to_nil {A} k : slice_to k (@nil A) = [].
Proof. unfold slice_to. destruct (k <? 0); apply take_nil. Qed.

Lemma slice_to_nonneg {A} k (x : list A) :
  0 <= k -> slice_to k x = take (Z.to_nat k) x.
Proof. unfold slice_to. intros Hk. destruct (Z.ltb_spec k 0); [lia|done]. Qed.

Lemma slice_to_sublist {A} k (x : list A) : slice_to k x `sublist_of` x.
Proof. unfold slice_to. destruct (k <? 0); apply sublist_take. Qed.

(** ** What a run of the selector returns *)

Lemma num_specific_quot N : num_specific N = Z.quot (N * 6) 10.
Proof. reflexivity. Qed.

Lemma num_specific_floor N : 0 <= N -> num_specific N = 3 * N / 5.
Proof.
  intros HN. rewrite num_specific_quot, Z.quot_div_nonneg by lia.
  replace (N * 6) with ((3 * N) * 2) by lia.
  change 10 with (5 * 2). by rewrite Z.div_mul_cancel_r.
Qed.

Lemma random_shuffle_eq {A} (x : list A) e :
  random_shuffle x e =
    ((shuffle x (rng e)).1, {| rng := (shuffle x (rng e)).2; shown := shown e |}).
Proof. unfold random_shuffle. by destruct (shuffle x (rng e)). Qed.

Lemma shuffle_nil {A} g : shuffle (@nil A) g = ([], g).
Proof. reflexivity. Qed.

Lemma prepare_questions_selection fs N e :
  (QuestionManager.prepare_questions fs N e).1 =
    selection N (pool fs DatabasePath.SPECIFIC_QUESTIONS)
                (pool fs DatabasePath.GENERAL_QUESTIONS) (rng e).
Proof.
  set (specific := pool fs DatabasePath.SPECIFIC_QUESTIONS).
  set (general := pool fs DatabasePath.GENERAL_QUESTIONS).
  unfold QuestionManager.prepare_questions, selection, mbind, Run_bind, mret,
    Run_ret.
  destruct (load_questions_run fs DatabasePath.SPECIFIC_QUESTIONS e)
    as (e1 & -> & Hr1 & _).
  destruct (load_questions_run fs DatabasePath.GENERAL_QUESTIONS e1)
    as (e2 & -> & Hr2 & _).
  fold specific general. fold (num_specific N).
  rewrite <-Hr1, <-Hr2. clear Hr1 Hr2.
  destruct (negb (nonempty specific) && negb (nonempty general)); [done|].
  assert (exists ea,
    (if nonempty specific
     then fun e0 => let '(a, e') := random_shuffle specific e0 in
                    ((a, [] ++ slice_to (num_specific N) a), e')
     else fun e0 => ((specific, []), e0)) e2
    = (((shuffle specific (rng e2)).1,
        slice_to (num_specific N) (shuffle specific (rng e2)).1), ea)
    /\ rng ea = (shuffle specific (rng e2)).2) as (ea & Hrun1 & Hg1).
  { destruct specific as [|q0 qs]; cbn [nonempty].
    - exists e2. rewrite shuffle_nil. cbn [fst snd]. by rewrite slice_to_nil.
    - rewrite random_shuffle_eq.
      by exists {| rng := (shuffle (q0 :: qs) (rng e2)).2; shown := shown e2 |}. }
  unfold Run. cbv beta in Hrun1 |- *. rewrite Hrun1. clear Hrun1.
  destruct (shuffle specific (rng e2)) as [s' g1]. cbn [fst snd] in *.
  set (picked := slice_to (num_specific N) s').
  assert (exists eb,
    (if nonempty general
     then fun e0 => let '(a, e') := random_shuffle general e0 in
       (if 0 <? N - Z.of_nat (length picked)
        then fun e1 => ((a, picked ++ slice_to (N - Z.of_nat (length picked)) a), e1)
        else fun e1 => ((a, picked), e1)) e'
     else fun e0 => ((general, picked), e0)) ea
    = (((shuffle general g1).1, ratio_draw N s' (shuffle general g1).1), eb)
    /\ rng eb = (shuffle general g1).2) as (eb & Hrun2 & Hg2).
  { unfold ratio_draw. fold picked. rewrite <-Hg1.
    destruct general as [|q0 qs]; cbn [nonempty].
    - exists ea. rewrite shuffle_nil. cbn [fst snd]. rewrite slice_to_nil.
      destruct (0 <? _); by rewrite app_nil_r.
    - rewrite random_shuffle_eq.
      exists {| rng := (shuffle (q0 :: qs) (rng ea)).2; shown := shown ea |}.
      split; [|done].
      destruct (0 <? _); [done|]. by rewrite app_nil_r. }
  cbv beta in Hrun2 |- *. rewrite Hrun2. clear Hrun2.
  destruct (shuffle general g1) as [g' g2]. cbn [fst snd] in *.
  destruct (Z.of_nat (length (ratio_draw N s' g')) <? N).
  - rewrite !random_shuffle_eq. cbn [fst snd rng]. rewrite Hg2.
    by destruct (shuffle (s' ++ g') g2).
  - rewrite random_shuffle_eq. cbn [fst snd]. by rewrite Hg2.
Qed.

Lemma prepare_questions_run fs N e :
  let specific := pool fs DatabasePath.SPECIFIC_QUESTIONS in
  let general := pool fs DatabasePath.GENERAL_QUESTIONS in
  let r := (QuestionManager.prepare_questions fs N e).1 in
  if negb (nonempty specific) && negb (nonempty general) then r = []
  else exists specific' general',
    specific' ≡ₚ specific /\ general' ≡ₚ general /\
    if Z.of_nat (length (ratio_draw N specific' general')) <? N
    then exists all', all' ≡ₚ specific' ++ general' /\ r ≡ₚ slice_to N all'
    else r ≡ₚ ratio_draw N specific' general'.
Proof.
  intros specific general r. subst r.
  rewrite prepare_questions_selection. fold specific general.
  unfold selection.
  destruct (negb (nonempty specific) && negb (nonempty general)); [done|].
  pose proof (shuffle_perm specific (rng e)) as Hs.
  destruct (shuffle specific (rng e)) as [s' g1].
  pose proof (shuffle_perm general g1) as Hg.
  destruct (shuffle general g1) as [g' g2].
  exists s', g'. split; [done|]. split; [done|].
  destruct (Z.of_nat (length (ratio_draw N s' g')) <? N).
  - pose proof (shuffle_perm (s' ++ g') g2) as Hall.
    destruct (shuffle (s' ++ g') g2) as [all' g3].
    exists all'. split; [done|]. apply shuffle_perm.
  - apply shuffle_perm.
Qed.

Lemma Qfloor_ratio N :
  Qfloor (inject_Z N * Config.SPECIFIC_QUESTIONS_RATIO) = 3 * N / 5.
Proof.
  rewrite <-(Z.div_mul_cancel_r (3 * N) 5 2) by lia.
  unfold Qfloor, Config.SPECIFIC_QUESTIONS_RATIO, Qmult, inject_Z.
  cbn [Qnum Qden]. f_equal; lia.
Qed.

Lemma ratio_draw_nonneg N (s g : list Question) :
  0 <= N ->
  ratio_draw N s g =
    take (Z.to_nat (3 * N / 5)) s ++
    take (Z.to_nat N - length (take (Z.to_nat (3 * N / 5)) s)) g.
Proof.
  intros HN. unfold ratio_draw.
  rewrite num_specific_floor by done.
  assert (0 <= 3 * N / 5) by (apply Z.div_pos; lia).
  rewrite slice_to_nonneg by done. f_equal.
  destruct (Z.ltb_spec 0 (N - Z.of_nat (length (take (Z.to_nat (3 * N / 5)) s)))).
  - rewrite slice_to_nonneg by lia. f_equal. lia.
  - replace (Z.to_nat N - _)%nat with 0%nat by lia. done.
Qed.

Lemma ratio_draw_length N (s g : list Question) :
  0 <= N ->
  Z.of_nat (length (ratio_draw N s g)) = ratio_draw_size N (length s) (length g).
Proof.
  intros HN. rewrite ratio_draw_nonneg by done.
  unfold ratio_draw_size. rewrite Qfloor_ratio.
  assert (0 <= 3 * N / 5 <= N) by (split; [apply Z.div_pos|apply Z.div_le_upper_bound]; lia).
  rewrite length_app, !length_take. lia.
Qed.

Lemma ratio_draw_submseteq N (s g : list Question) : ratio_draw N s g ⊆+ s ++ g.
Proof.
  unfold ratio_draw. apply submseteq_app.
  - apply sublist_submseteq, slice_to_sublist.
  - destruct (0 <? _); [apply sublist_submseteq, slice_to_sublist|].
    apply submseteq_nil_l.
Qed.

(** Whatever is returned was drawn from the two pools, no row twice. *)
Lemma prepare_questions_submseteq fs N e :
  (QuestionManager.prepare_questions fs N e).1 ⊆+
    pool fs DatabasePath.SPECIFIC_QUESTIONS ++ pool fs DatabasePath.GENERAL_QUESTIONS.
Proof.
  pose proof (prepare_questions_run fs N e) as H. cbv zeta in H.
  destruct (negb _ && negb _).
  - rewrite H. apply submseteq_nil_l.
  - destruct H as (s' & g' & Hs & Hg & H). rewrite <-Hs, <-Hg.
    destruct (_ <? N).
    + destruct H as (all' & Hall & ->). rewrite <-Hall.
      apply sublist_submseteq, slice_to_sublist.
    + rewrite H. apply ratio_draw_submseteq.
Qed.

Lemma prepare_questions_length fs N e :
  0 <= N ->
  length (QuestionManager.prepare_questions fs N e).1 =
    (Z.to_nat N `min`
       (length (pool fs DatabasePath.SPECIFIC_QUESTIONS) +
        length (pool fs DatabasePath.GENERAL_QUESTIONS)))%nat.
Proof.
  intros HN.
  pose proof (prepare_questions_run fs N e) as H. cbv zeta in H.
  destruct (pool fs DatabasePath.SPECIFIC_QUESTIONS) as [|q0 qs] eqn:Hs;
    destruct (pool fs DatabasePath.GENERAL_QUESTIONS) as [|p0 ps] eqn:Hg;
    cbn [nonempty negb andb] in H.
  { rewrite H. cbn. lia. }
  all: destruct H as (s' & g' & Hs' & Hg' & H);
    apply Permutation_length in Hs', Hg';
    pose proof (ratio_draw_length N s' g' HN) as Hlen;
    pose proof (submseteq_length _ _ (ratio_draw_submseteq N s' g')) as Hle;
    rewrite length_app in Hle;
    assert (ratio_draw_size N (length s') (length g') <= N) as Hup
      by (unfold ratio_draw_size; lia);
    destruct (Z.ltb_spec (Z.of_nat (length (ratio_draw N s' g'))) N);
    [ destruct H as (all' & Hall & ->); apply Permutation_length in Hall;
      rewrite slice_to_nonneg, length_take, Hall, length_app by done; lia
    | rewrite H; lia ].
Qed.

Lemma submseteq_NoDup_fmap {A B} (f : A -> B) (l k : list A) :
  l ⊆+ k -> NoDup (f <$> k) -> NoDup (f <$> l).
Proof.
  intros Hsub Hk. apply (fmap_submseteq f) in Hsub.
  apply submseteq_Permutation in Hsub as [rest Hrest].
  rewrite Hrest in Hk. by apply NoDup_app in Hk as (? & _ & _).
Qed.


Lemma both_empty_iff {A} (x y : list A) :
  negb (nonempty x) && negb (nonempty y) = true <-> x = [] /\ y = [].
Proof. destruct x, y; cbn; intuition congruence. Qed.

(** ** Claims about the selector *)

(** C1 (as amended). For every offered size N and every pair of pools that
    is not both-empty, [prepare_questions] returns exactly
    min(N, totalAvailable) questions, no row of the two pools more than
    once, and they are unique by id whenever the ids of the two pools
    taken together are. *)
Theorem prepare_questions_count_and_ids fs N e :
  N ∈ offered_sizes ->
  ~ (pool fs DatabasePath.SPECIFIC_QUESTIONS = [] /\
     pool fs DatabasePath.GENERAL_QUESTIONS = []) ->
  let total_available :=
    (length (pool fs DatabasePath.SPECIFIC_QUESTIONS) +
     length (pool fs DatabasePath.GENERAL_QUESTIONS))%nat in
  let r := (QuestionManager.prepare_questions fs N e).1 in
  length r = (Z.to_nat N `min` total_available)%nat /\
  r ⊆+ pool fs DatabasePath.SPECIFIC_QUESTIONS ++
       pool fs DatabasePath.GENERAL_QUESTIONS /\
  (NoDup (id <$> (pool fs DatabasePath.SPECIFIC_QUESTIONS ++
                  pool fs DatabasePath.GENERAL_QUESTIONS)) ->
   NoDup (id <$> r)).
Proof.
  intros HN _ total r. split; [|split].
  - apply prepare_questions_length.
    unfold offered_sizes in HN.
    repeat (apply elem_of_cons in HN as [->|HN]; [lia|]).
    by apply elem_of_nil in HN.
  - apply prepare_questions_submseteq.
  - apply submseteq_NoDup_fmap, prepare_questions_submseteq.
Qed.

Lemma prepare_questions_count_and_ids_witness :
  let r := (QuestionManager.prepare_questions Sample.full_banks 10 Sample.env).1 in
  length r = 10%nat /\ NoDup (id <$> r).
Proof.
  pose proof (prepare_questions_count_and_ids Sample.full_banks 10 Sample.env)
    as H.
  cbv zeta in H |- *.
  destruct H as (Hlen & _ & Hids).
  - apply list_elem_of_here.
  - intros [Hs _]. vm_compute in Hs. discriminate.
  - split; [exact Hlen|]. apply Hids.
    apply (bool_decide_unpack _). by vm_compute.
Defined.

(** C1, as stated, fails: each table numbers its own rows, so two pools
    can hold the same id, and both rows can be drawn. *)
Lemma prepare_questions_repeats_id :
  10 ∈ offered_sizes /\
  ~ (pool Sample.two_banks DatabasePath.SPECIFIC_QUESTIONS = [] /\
     pool Sample.two_banks DatabasePath.GENERAL_QUESTIONS = []) /\
  ~ NoDup (id <$> (QuestionManager.prepare_questions Sample.two_banks 10 Sample.env).1).
Proof.
  split; [apply list_elem_of_here|]. split.
  - intros [Hs _]. vm_compute in Hs. discriminate.
  - vm_compute. intros H. apply NoDup_cons in H as [Hin _].
    apply Hin. by left.
Qed.

(** C3. When the specific pool holds at least N×0.6 questions and the
    general pool at least N×0.4, the returned sequence is a rearrangement
    of a part drawn from the specific pool followed by a part drawn from
    the general pool, and the first part has at least floor(N×0.6)
    members; so at least that many of the returned questions are
    questions of the specific pool. *)
Theorem prepare_questions_specific_share fs N e :
  let specific := pool fs DatabasePath.SPECIFIC_QUESTIONS in
  let general := pool fs DatabasePath.GENERAL_QUESTIONS in
  let r := (QuestionManager.prepare_questions fs N e).1 in
  let share := Qfloor (inject_Z N * (6 # 10)) in
  (inject_Z N * (6 # 10) <= inject_Z (Z.of_nat (length specific)))%Q ->
  (inject_Z N * (4 # 10) <= inject_Z (Z.of_nat (length general)))%Q ->
  (exists picked rest,
      r ≡ₚ picked ++ rest /\ picked ⊆+ specific /\ rest ⊆+ general /\
      share <= Z.of_nat (length picked)) /\
  share <= Z.of_nat (length (filter (fun q => q ∈ specific) r)).
Proof.
  intros specific general r share HS HG.
  assert (share = 3 * N / 5) as Hshare by apply Qfloor_ratio.
  assert (6 * N <= 10 * Z.of_nat (length specific)) as HS'.
  { unfold Qle, Qmult, inject_Z in HS. cbn [Qnum Qden] in HS. lia. }
  assert (4 * N <= 10 * Z.of_nat (length general)) as HG'.
  { unfold Qle, Qmult, inject_Z in HG. cbn [Qnum Qden] in HG. lia. }
  clear HS HG.
  assert (exists picked rest,
      r ≡ₚ picked ++ rest /\ picked ⊆+ specific /\ rest ⊆+ general /\
      share <= Z.of_nat (length picked)) as Hsplit.
  { pose proof (prepare_questions_run fs N e) as H. cbv zeta in H.
    fold specific general r in H.
    destruct (negb (nonempty specific) && negb (nonempty general)) eqn:Hboth.
    - apply both_empty_iff in Hboth as [Hs Hg].
      exists [], []. rewrite H, Hs, Hg. repeat split; try done.
      rewrite Hs in HS'. cbn in HS'.
      assert (3 * N / 5 <= 0) by (apply Z.div_le_upper_bound; lia). lia.
    - destruct H as (s' & g' & Hs & Hg & H).
      pose proof (Permutation_length Hs) as Hls.
      pose proof (Permutation_length Hg) as Hlg.
      assert ((Z.of_nat (length (ratio_draw N s' g')) <? N) = false) as Hfull.
      { apply Z.ltb_ge. destruct (Z.le_gt_cases 0 N) as [HN|HN]; [|lia].
        rewrite ratio_draw_length by done.
        unfold ratio_draw_size. rewrite Qfloor_ratio.
        pose proof (Z.mul_div_le (3 * N) 5). pose proof (Z.mod_pos_bound (3 * N) 5).
        pose proof (Z.div_mod (3 * N) 5). lia. }
      rewrite Hfull in H. unfold ratio_draw in H.
      eexists _, _. split; [exact H|].
      split; [rewrite <-Hs; apply sublist_submseteq, slice_to_sublist|].
      split.
      + rewrite <-Hg. destruct (0 <? _); [|apply submseteq_nil_l].
        apply sublist_submseteq, slice_to_sublist.
      + destruct (Z.le_gt_cases 0 N) as [HN|HN].
        * rewrite num_specific_floor by done.
          assert (0 <= 3 * N / 5) by (apply Z.div_pos; lia).
          rewrite slice_to_nonneg, length_take by done.
          pose proof (Z.mul_div_le (3 * N) 5). lia.
        * assert (3 * N / 5 < 0) by (apply Z.div_lt_upper_bound; lia). lia. }
  split; [done|].
  destruct Hsplit as (picked & rest & Hr & Hp & _ & Hlen).
  rewrite Hr, filter_app, length_app.
  assert (filter (fun q => q ∈ specific) picked = picked) as ->; [|lia].
  assert (Forall (fun q => q ∈ specific) picked) as Hall.
  { apply Forall_forall. intros q Hq. by eapply elem_of_submseteq. }
  clear -Hall. induction Hall as [|q l Hq _ IH]; [done|].
  rewrite filter_cons_True by done. by rewrite IH.
Qed.

Lemma prepare_questions_specific_share_witness :
  6 <= Z.of_nat (length (filter
         (fun q => q ∈ pool Sample.full_banks DatabasePath.SPECIFIC_QUESTIONS)
         (QuestionManager.prepare_questions Sample.full_banks 10 Sample.env).1)).
Proof.
  refine (proj2 (prepare_questions_specific_share Sample.full_banks 10 Sample.env _ _)).
  - by vm_compute.
  - by vm_compute.
Defined.



(** ** Claims about starting without questions *)

Lemma prepare_questions_empty fs N e :
  pool fs DatabasePath.SPECIFIC_QUESTIONS = [] ->
  pool fs DatabasePath.GENERAL_QUESTIONS = [] ->
  exists loads,
    QuestionManager.prepare_questions fs N e =
      ([], {| rng := rng e;
              shown := shown e ++ loads ++
                       ["Nenhuma questão encontrada nos bancos de dados!"] |}).
Proof.
  intros Hs Hg.
  unfold QuestionManager.prepare_questions, mbind, Run_bind, mret, Run_ret.
  destruct (load_questions_run fs DatabasePath.SPECIFIC_QUESTIONS e)
    as (e1 & -> & Hr1 & m1 & Hm1).
  destruct (load_questions_run fs DatabasePath.GENERAL_QUESTIONS e1)
    as (e2 & -> & Hr2 & m2 & Hm2).
  rewrite Hs, Hg. cbn. unfold st_error. exists (m1 ++ m2).
  rewrite Hr2, Hr1, Hm2, Hm1. by rewrite <-!app_assoc.
Qed.

(** C6. With both pools empty [prepare_questions] returns the empty
    sequence, and [start_quiz] returns normally with the session exactly
    as it found it, so a session that was not started still is not, with
    no questions and position 0; the last two messages it shows are the
    selector's and its own error. *)
Theorem start_quiz_without_questions fs N s e :
  pool fs DatabasePath.SPECIFIC_QUESTIONS = [] ->
  pool fs DatabasePath.GENERAL_QUESTIONS = [] ->
  (QuestionManager.prepare_questions fs N e).1 = [] /\
  (start_quiz fs N s e).1 = s /\
  (let s' := (start_quiz fs N (initialize_session_state None) e).1 in
   main s' = InitialScreen /\ quiz_started s' = false /\
   questions s' = [] /\ current_question s' = 0%nat) /\
  exists loads,
    shown (start_quiz fs N s e).2 =
      shown e ++ loads ++
      ["Nenhuma questão encontrada nos bancos de dados!";
       "Não foi possível carregar as questões. Verifique se os bancos de dados estão disponíveis."].
Proof.
  intros Hs Hg.
  assert (forall s0, exists loads, start_quiz fs N s0 e =
    (s0, {| rng := rng e;
            shown := shown e ++ loads ++
              ["Nenhuma questão encontrada nos bancos de dados!";
               "Não foi possível carregar as questões. Verifique se os bancos de dados estão disponíveis."] |}))
    as Hstart.
  { intros s0. destruct (prepare_questions_empty fs N e Hs Hg) as [loads Hrun].
    exists loads. unfold start_quiz, mbind, Run_bind. rewrite Hrun. cbn.
    unfold st_error. cbn. by rewrite <-!app_assoc. }
  destruct (prepare_questions_empty fs N e Hs Hg) as [loads0 ->].
  split; [done|].
  destruct (Hstart s) as [loads ->].
  destruct (Hstart (initialize_session_state None)) as [loads' ->].
  split; [done|]. split; [done|]. by exists loads.
Qed.

Lemma start_quiz_without_questions_witness :
  (start_quiz Sample.no_banks 40 Sample.fresh Sample.env).1 = Sample.fresh /\
  shown (start_quiz Sample.no_banks 40 Sample.fresh Sample.env).2 =
    ["Banco de dados não encontrado: questoesEspecificas.db";
     "Banco de dados não encontrado: questoesGerais.db";
     "Nenhuma questão encontrada nos bancos de dados!";
     "Não foi possível carregar as questões. Verifique se os bancos de dados estão disponíveis."].
Proof.
  split.
  - apply (start_quiz_without_questions Sample.no_banks 40 Sample.fresh Sample.env);
      reflexivity.
  - reflexivity.
Defined.

(** ** Binary64: what holds of every rounding *)

(** Rounding to the nearest integer does not pass an integer bound. *)
Lemma mantissa_bounds num den K :
  0 < den -> 0 <= num -> num <= K * den ->
  0 <= Binary64.mantissa num den <= K.
Proof.
  intros Hden Hnum HK. unfold Binary64.mantissa.
  pose proof (Z.div_mod num den) as Hdm.
  pose proof (Z.mod_pos_bound num den Hden) as Hmod.
  assert (0 <= num / den) as Hm0 by (apply Z.div_pos; lia).
  assert (num / den <= K) as HmK by (apply Z.div_le_upper_bound; lia).
  assert (0 < num mod den -> num / den < K) as Hstrict by nia.
  destruct (Z.compare_spec (2 * (num mod den)) den); [|lia|lia].
  destruct (Z.even (num / den)); lia.
Qed.

(** A ratio of at most B, B below 2^51, has a negative exponent. *)
Lemma exponent_negative p q B :
  0 < B -> Z.log2 B <= 50 -> Z.pos p <= B * Z.pos q ->
  Binary64.exponent p q < 0.
Proof.
  intros HB Hlog Hle. unfold Binary64.exponent.
  assert (Z.log2 (Z.pos p) <= Z.log2 B + Z.log2 (Z.pos q) + 1) as Hk.
  { etransitivity; [apply Z.log2_le_mono, Hle|].
    apply Z.log2_mul_above; lia. }
  destruct (if 0 <=? _ then _ else _); lia.
Qed.

Lemma round_pos_bounds p q B :
  0 < B -> Z.log2 B <= 50 -> Z.pos p <= B * Z.pos q ->
  (0 <= Binary64.round_pos p q)%Q /\ (Binary64.round_pos p q <= inject_Z B)%Q.
Proof.
  intros HB Hlog Hle. unfold Binary64.round_pos.
  pose proof (exponent_negative p q B HB Hlog Hle) as He.
  set (e := Binary64.exponent p q) in *.
  destruct (Z.leb_spec 0 e) as [|_]; [lia|].
  assert (0 < 2 ^ (- e)) as Hpow by (apply Z.pow_pos_nonneg; lia).
  destruct (mantissa_bounds (Z.pos p * 2 ^ (- e)) (Z.pos q) (B * 2 ^ (- e)))
    as [Hm0 HmK]; [lia|nia|nia|].
  rewrite !Qred_correct. unfold Qle, inject_Z. cbn [Qnum Qden].
  rewrite Z2Pos.id by done. lia.
Qed.

Lemma round_bounds x B :
  0 < B -> Z.log2 B <= 50 ->
  (0 <= x)%Q -> (x <= inject_Z B)%Q ->
  (0 <= Binary64.round x)%Q /\ (Binary64.round x <= inject_Z B)%Q.
Proof.
  intros HB Hlog H0 HxB. destruct x as [n d]. unfold Binary64.round.
  unfold Qle, inject_Z in H0, HxB. cbn [Qnum Qden] in *.
  destruct n as [|n|n]; [|apply round_pos_bounds; [done|done|lia]|lia].
  split; unfold Qle, inject_Z; cbn [Qnum Qden]; lia.
Qed.

(** Within such a bound nothing overflows. *)
Lemma nearest_bounds x B :
  0 < B -> Z.log2 B <= 50 ->
  (0 <= x)%Q -> (x <= inject_Z B)%Q ->
  Binary64.nearest x = Binary64.Finite (Binary64.round x) /\
  (0 <= Binary64.round x)%Q /\ (Binary64.round x <= inject_Z B)%Q.
Proof.
  intros HB Hlog H0 HxB.
  destruct (round_bounds x B HB Hlog H0 HxB) as [Hr0 HrB].
  split; [|done]. unfold Binary64.nearest. cbv zeta.
  assert (B < 2 ^ 1024) as Hbig.
  { pose proof (Z.log2_spec B HB) as [_ Hup].
    assert (2 ^ Z.succ (Z.log2 B) <= 2 ^ 51)
      by (apply Z.pow_le_mono_r; lia).
    assert (2 ^ 51 < 2 ^ 1024) by (apply Z.pow_lt_mono_r; lia). lia. }
  assert (0 < 2 ^ 1024) as Hpos by (apply Z.pow_pos_nonneg; lia).
  destruct (Qle_bool (inject_Z (2 ^ 1024)) (Binary64.round x)) eqn:Hhi.
  { apply Qle_bool_iff in Hhi.
    pose proof (Qle_trans _ _ _ Hhi HrB) as Hc.
    unfold Qle, inject_Z in Hc. cbn [Qnum Qden] in Hc. lia. }
  destruct (Qle_bool (Binary64.round x) (- inject_Z (2 ^ 1024))) eqn:Hlo;
    [|done].
  apply Qle_bool_iff in Hlo.
  pose proof (Qle_trans _ _ _ Hr0 Hlo) as Hc.
  unfold Qle, Qopp, inject_Z in Hc. cbn [Qnum Qden] in Hc. lia.
Qed.

(** The mantissa is a nearest integer to num/den. *)
Lemma mantissa_nearest num den :
  0 < den ->
  let m := Binary64.mantissa num den in
  2 * (m * den - num) <= den /\ - den <= 2 * (m * den - num).
Proof.
  intros Hden. cbv zeta. unfold Binary64.mantissa.
  pose proof (Z.div_mod num den ltac:(lia)) as Hdm.
  pose proof (Z.mod_pos_bound num den Hden) as Hmod.
  destruct (Z.compare_spec (2 * (num mod den)) den);
    [destruct (Z.even (num / den))| |]; nia.
Qed.

Lemma exponent_le p q b :
  0 <= b -> Z.pos p <= 2 ^ b * Z.pos q ->
  Binary64.exponent p q <= Z.max (b - 52) (-1074).
Proof.
  intros Hb Hle. unfold Binary64.exponent.
  assert (Z.log2 (Z.pos p) <= b + Z.log2 (Z.pos q)) as Hk.
  { etransitivity; [apply Z.log2_le_mono, Hle|].
    rewrite Z.mul_comm, Z.log2_mul_pow2 by lia. lia. }
  destruct (if 0 <=? _ then _ else _); lia.
Qed.

(** Rounding a ratio of at most 2^b moves it by at most 2^(b-53). *)
Lemma round_pos_error p q b :
  0 <= b <= 51 -> Z.pos p <= 2 ^ b * Z.pos q ->
  ((Z.pos p # q) - (1 # Z.to_pos (2 ^ (53 - b))) <= Binary64.round_pos p q)%Q /\
  (Binary64.round_pos p q <= (Z.pos p # q) + (1 # Z.to_pos (2 ^ (53 - b))))%Q.
Proof.
  intros Hb Hle. unfold Binary64.round_pos.
  pose proof (exponent_le p q b ltac:(lia) Hle) as He.
  set (e := Binary64.exponent p q) in *.
  destruct (Z.leb_spec 0 e) as [|_]; [lia|].
  assert (0 < 2 ^ (- e)) as Hpow by (apply Z.pow_pos_nonneg; lia).
  assert (0 < 2 ^ (52 - b)) as HpowS by (apply Z.pow_pos_nonneg; lia).
  assert (2 ^ (52 - b) <= 2 ^ (- e)) as Hmono by (apply Z.pow_le_mono_r; lia).
  assert (2 ^ (53 - b) = 2 * 2 ^ (52 - b)) as Hsucc.
  { replace (53 - b) with (Z.succ (52 - b)) by lia. apply Z.pow_succ_r. lia. }
  destruct (mantissa_nearest (Z.pos p * 2 ^ (- e)) (Z.pos q) ltac:(lia))
    as [Hup Hdown].
  set (m := Binary64.mantissa _ _) in *.
  rewrite !Qred_correct. unfold Qle, Qminus, Qplus, Qopp. cbn [Qnum Qden].
  rewrite !Pos2Z.inj_mul, !Z2Pos.id by lia. rewrite Hsucc.
  set (a := 2 ^ (- e)) in *. set (c := 2 ^ (52 - b)) in *.
  clearbody a c m. split; nia.
Qed.

Lemma round_error x b :
  0 <= b <= 51 -> (0 <= x)%Q -> (x <= inject_Z (2 ^ b))%Q ->
  (x - (1 # Z.to_pos (2 ^ (53 - b))) <= Binary64.round x)%Q /\
  (Binary64.round x <= x + (1 # Z.to_pos (2 ^ (53 - b))))%Q.
Proof.
  intros Hb H0 HxB. destruct x as [n d]. unfold Binary64.round.
  unfold Qle, inject_Z in H0, HxB. cbn [Qnum Qden] in *.
  destruct n as [|n|n]; [|apply round_pos_error; [done|lia]|lia].
  unfold Qle, Qminus, Qplus, Qopp. cbn [Qnum Qden]. lia.
Qed.

Lemma exact_percentage C T :
  (inject_Z (100 * C) / inject_Z T == 100 * (inject_Z C / inject_Z T))%Q.
Proof. rewrite inject_Z_mult. unfold Qdiv. ring. Qed.

(** The two roundings of a score: the quotient and the product are
    finite, and the product is a percentage between 0 and 100 within
    2^-45 of 100×C/T. *)
Lemma percentage_close C T :
  0 <= C <= T -> 0 < T ->
  let exact := (inject_Z (100 * C) / inject_Z T)%Q in
  let y := Binary64.round (inject_Z C / inject_Z T) in
  let P := Binary64.round (y * 100) in
  Binary64.truediv C T = Binary64.Value (Binary64.Finite y) /\
  Binary64.mul (Binary64.Finite y) 100 = Binary64.Finite P /\
  (0 <= P)%Q /\ (P <= 100)%Q /\
  (exact - (1 # 2 ^ 45) <= P)%Q /\ (P <= exact + (1 # 2 ^ 45))%Q.
Proof.
  intros HC HT exact y P.
  pose proof (exact_percentage C T) as Hex. fold exact in Hex.
  assert ((0 <= inject_Z C / inject_Z T)%Q /\
          (inject_Z C / inject_Z T <= inject_Z 1)%Q) as [Hq0 Hq1].
  { destruct T as [|t|t]; try lia.
    unfold Qle, Qdiv, Qmult, Qinv, inject_Z. cbn [Qnum Qden Z.sgn].
    rewrite ?Pos2Z.inj_mul. lia. }
  destruct (nearest_bounds _ 1 ltac:(lia) ltac:(done) Hq0 Hq1)
    as (Hdiv & Hy0 & Hy1).
  destruct (round_error _ 0 ltac:(lia) Hq0 Hq1) as [Hylo Hyhi].
  fold y in Hdiv, Hy0, Hy1, Hylo, Hyhi.
  assert ((0 <= y * 100)%Q /\ (y * 100 <= inject_Z 100)%Q) as [Hz0 Hz1].
  { split; [by apply Qmult_le_0_compat|].
    change (inject_Z 100) with (inject_Z 1 * 100)%Q.
    by apply Qmult_le_compat_r. }
  destruct (nearest_bounds _ 100 ltac:(lia) ltac:(done) Hz0 Hz1)
    as (Hmul & HP0 & HP1).
  assert (y * 100 <= inject_Z (2 ^ 7))%Q as Hz7.
  { eapply Qle_trans; [exact Hz1|]. by vm_compute. }
  destruct (round_error _ 7 ltac:(lia) Hz0 Hz7) as [HPlo HPhi].
  fold P in Hmul, HP0, HP1, HPlo, HPhi.
  split_and!; try done.
  - unfold Binary64.truediv.
    destruct (Z.eqb_spec T 0) as [|_]; [lia|]. by rewrite Hdiv.
  - set (x := (inject_Z C / inject_Z T)%Q) in *. clearbody exact x y P.
    change (1 # Z.to_pos (2 ^ (53 - 0)))%Q with (1 # 9007199254740992)%Q in *.
    change (1 # Z.to_pos (2 ^ (53 - 7)))%Q with (1 # 70368744177664)%Q in *.
    change (1 # 2 ^ 45)%Q with (1 # 35184372088832)%Q. lra.
  - set (x := (inject_Z C / inject_Z T)%Q) in *. clearbody exact x y P.
    change (1 # Z.to_pos (2 ^ (53 - 0)))%Q with (1 # 9007199254740992)%Q in *.
    change (1 # Z.to_pos (2 ^ (53 - 7)))%Q with (1 # 70368744177664)%Q in *.
    change (1 # 2 ^ 45)%Q with (1 # 35184372088832)%Q. lra.
Qed.

(** A score, C correct out of T with 0 <= C <= T, is given a finite
    percentage between 0 and 100, within 2^-45 of 100×C/T. *)
Lemma evaluate_performance_close C T :
  0 <= C <= T -> 0 < T ->
  exists P level message,
    PerformanceEvaluator.evaluate_performance C T =
      Binary64.Value (Binary64.Finite P, level, message) /\
    (0 <= P)%Q /\ (P <= 100)%Q /\
    (inject_Z (100 * C) / inject_Z T - (1 # 2 ^ 45) <= P)%Q /\
    (P <= inject_Z (100 * C) / inject_Z T + (1 # 2 ^ 45))%Q.
Proof.
  intros HC HT.
  destruct (percentage_close C T HC HT) as (Hdiv & Hmul & HP).
  unfold PerformanceEvaluator.evaluate_performance.
  destruct (Z.eqb_spec T 0) as [|_]; [lia|].
  rewrite Hdiv. cbv zeta. rewrite Hmul.
  repeat destruct (Binary64.ge_int _ _); by eexists _, _, _.
Qed.

Lemma evaluate_performance_score C T :
  0 <= C <= T -> 0 < T ->
  exists P level message,
    PerformanceEvaluator.evaluate_performance C T =
      Binary64.Value (Binary64.Finite P, level, message) /\
    (0 <= P)%Q /\ (P <= 100)%Q.
Proof.
  intros HC HT.
  destruct (evaluate_performance_close C T HC HT)
    as (P & level & message & Heval & HP0 & HP1 & _).
  by exists P, level, message.
Qed.

(** A ratio from a half up to one has exponent -53. *)
Lemma exponent_half p q :
  Z.pos q <= 2 * Z.pos p -> Z.pos p < Z.pos q ->
  Binary64.exponent p q = -53.
Proof.
  intros Hlo Hhi. unfold Binary64.exponent.
  assert (Z.log2 (Z.pos p) <= Z.log2 (Z.pos q)) by (apply Z.log2_le_mono; lia).
  assert (Z.log2 (Z.pos q) <= Z.succ (Z.log2 (Z.pos p))).
  { rewrite <-Z.log2_double by lia. by apply Z.log2_le_mono. }
  set (k := Z.log2 (Z.pos p) - Z.log2 (Z.pos q)).
  assert (k = 0 \/ k = -1) as [Hk|Hk] by lia; clearbody k; subst k; cbv zeta.
  - change (0 <=? 0) with true. change (2 ^ 0) with 1. cbv iota.
    destruct (Z.leb_spec (Z.pos q * 1) (Z.pos p)); lia.
  - change (0 <=? -1) with false. change (2 ^ (- -1)) with 2. cbv iota.
    destruct (Z.leb_spec (Z.pos q) (Z.pos p * 2)); lia.
Qed.

Lemma round_quotient c t :
  Binary64.round (inject_Z (Z.pos c) / inject_Z (Z.pos t)) =
  Binary64.round_pos c t.
Proof.
  unfold Binary64.round, Qdiv, Qmult, Qinv, inject_Z. cbn [Qnum Qden Z.sgn].
  by rewrite Z.mul_1_r, Pos.mul_1_l.
Qed.

(** The quotient of a score of exactly 70% is the double of 7/10, and
    that of a score of exactly 50% is 1/2, whatever the two counts. *)
Lemma round_seven_tenths C T :
  0 < T -> 10 * C = 7 * T ->
  Binary64.round (inject_Z C / inject_Z T) = Binary64.round (7 # 10).
Proof.
  intros HT Heq. destruct T as [|t|t]; try lia. destruct C as [|c|c]; try lia.
  rewrite round_quotient. unfold Binary64.round_pos.
  rewrite exponent_half by lia.
  change (0 <=? -53) with false. cbv iota.
  destruct (mantissa_nearest (Z.pos c * 2 ^ (- -53)) (Z.pos t) ltac:(lia))
    as [Hup Hdown].
  set (m := Binary64.mantissa _ _) in *.
  assert (m = 6305039478318694) as ->; [|by vm_compute].
  change (2 ^ (- -53)) with 9007199254740992 in *. clearbody m. nia.
Qed.

Lemma round_one_half C T :
  0 < T -> 2 * C = T ->
  Binary64.round (inject_Z C / inject_Z T) = Binary64.round (1 # 2).
Proof.
  intros HT Heq. destruct T as [|t|t]; try lia. destruct C as [|c|c]; try lia.
  rewrite round_quotient. unfold Binary64.round_pos.
  rewrite exponent_half by lia.
  change (0 <=? -53) with false. cbv iota.
  destruct (mantissa_nearest (Z.pos c * 2 ^ (- -53)) (Z.pos t) ltac:(lia))
    as [Hup Hdown].
  set (m := Binary64.mantissa _ _) in *.
  assert (m = 4503599627370496) as ->; [|by vm_compute].
  change (2 ^ (- -53)) with 9007199254740992 in *. clearbody m. nia.
Qed.

(** With at most 2^48 questions a score off a threshold is off it by
    more than the rounding can move it. *)
Lemma exact_percentage_above (k g C T : Z) :
  0 < T <= 2 ^ 48 -> 0 <= g -> k * T + g <= 100 * C ->
  (inject_Z k + (g # 2 ^ 48) <= inject_Z (100 * C) / inject_Z T)%Q.
Proof.
  intros HT Hg Hle. destruct T as [|t|t]; try lia.
  change (2 ^ 48) with 281474976710656 in HT.
  unfold Qle, Qplus, Qdiv, Qmult, Qinv, inject_Z. cbn [Qnum Qden Z.sgn].
  rewrite ?Pos2Z.inj_mul. change (Z.pos (2 ^ 48)) with 281474976710656. nia.
Qed.

Lemma exact_percentage_below (k g C T : Z) :
  0 < T <= 2 ^ 48 -> 0 <= g -> 100 * C + g <= k * T ->
  (inject_Z (100 * C) / inject_Z T <= inject_Z k - (g # 2 ^ 48))%Q.
Proof.
  intros HT Hg Hle. destruct T as [|t|t]; try lia.
  change (2 ^ 48) with 281474976710656 in HT.
  unfold Qle, Qminus, Qplus, Qopp, Qdiv, Qmult, Qinv, inject_Z.
  cbn [Qnum Qden Z.sgn].
  rewrite ?Pos2Z.inj_mul. change (Z.pos (2 ^ 48)) with 281474976710656. nia.
Qed.

Lemma Qle_bool_false x y : (y < x)%Q -> Qle_bool x y = false.
Proof.
  intros Hlt. destruct (Qle_bool x y) eqn:Hle; [|done].
  apply Qle_bool_iff in Hle. lra.
Qed.

(** For a score of a quiz of up to 2^48 questions the two roundings do
    not change the tier: it is the one that 100×C/T itself would give. *)
Lemma evaluate_performance_exact_tier C T :
  0 <= C <= T -> 0 < T <= 2 ^ 48 ->
  exists P message,
    PerformanceEvaluator.evaluate_performance C T =
      Binary64.Value (Binary64.Finite P, exact_tier C T, message).
Proof.
  intros HC HT.
  destruct (percentage_close C T HC ltac:(lia))
    as (Hdiv & Hmul & _ & _ & Hlo & Hhi).
  unfold PerformanceEvaluator.evaluate_performance.
  destruct (Z.eqb_spec T 0) as [|_]; [lia|].
  rewrite Hdiv. cbv zeta. rewrite Hmul.
  set (exact := (inject_Z (100 * C) / inject_Z T)%Q) in *.
  set (P := Binary64.round (Binary64.round (inject_Z C / inject_Z T) * 100))
    in *.
  unfold Binary64.ge_int, Config.EXCELLENT_THRESHOLD, Config.GOOD_THRESHOLD.
  change (1 # 2 ^ 45)%Q with (1 # 35184372088832)%Q in *.
  assert (7 * T <= 10 * C -> (inject_Z 70 <= P)%Q) as H70.
  { intros Hle. destruct (Z.eq_dec (10 * C) (7 * T)) as [Heq|Hne].
    - subst P. rewrite round_seven_tenths by lia. by vm_compute.
    - pose proof (exact_percentage_above 70 10 C T HT ltac:(lia) ltac:(lia)) as H.
      fold exact in H. change (10 # 2 ^ 48)%Q with (10 # 281474976710656)%Q in H.
      change (inject_Z 70) with 70%Q in *. clearbody exact P. lra. }
  assert (10 * C < 7 * T -> (P < inject_Z 70)%Q) as H70'.
  { intros Hlt.
    pose proof (exact_percentage_below 70 10 C T HT ltac:(lia) ltac:(lia)) as H.
    fold exact in H. change (10 # 2 ^ 48)%Q with (10 # 281474976710656)%Q in H.
    change (inject_Z 70) with 70%Q in *. clearbody exact P. lra. }
  assert (T <= 2 * C -> (inject_Z 50 <= P)%Q) as H50.
  { intros Hle. destruct (Z.eq_dec (2 * C) T) as [Heq|Hne].
    - subst P. rewrite round_one_half by lia. by vm_compute.
    - pose proof (exact_percentage_above 50 50 C T HT ltac:(lia) ltac:(lia)) as H.
      fold exact in H. change (50 # 2 ^ 48)%Q with (50 # 281474976710656)%Q in H.
      change (inject_Z 50) with 50%Q in *. clearbody exact P. lra. }
  assert (2 * C < T -> (P < inject_Z 50)%Q) as H50'.
  { intros Hlt.
    pose proof (exact_percentage_below 50 50 C T HT ltac:(lia) ltac:(lia)) as H.
    fold exact in H. change (50 # 2 ^ 48)%Q with (50 # 281474976710656)%Q in H.
    change (inject_Z 50) with 50%Q in *. clearbody exact P. lra. }
  unfold exact_tier.
  destruct (Z.leb_spec (7 * T) (10 * C)) as [Ha|Ha].
  { apply H70, Qle_bool_iff in Ha. rewrite Ha. by eexists _, _. }
  rewrite (Qle_bool_false _ _ (H70' Ha)).
  destruct (Z.leb_spec T (2 * C)) as [Hb|Hb].
  { apply H50, Qle_bool_iff in Hb. rewrite Hb. by eexists _, _. }
  rewrite (Qle_bool_false _ _ (H50' Hb)). by eexists _, _.
Qed.

(** ** Claims about the scorer *)








(** ** Claims about the session handlers *)

(** C8. [reset_quiz] leaves a session, a Finished one in particular,
    not started, with no questions, an empty answer log, correct-count 0,
    position 0 and every per-question flag cleared: the fresh session. *)
Theorem reset_quiz_clears s :
  let s' := reset_quiz s in
  s' = initialize_session_state None /\
  main s' = InitialScreen /\
  quiz_started s' = false /\ questions s' = [] /\ user_answers s' = [] /\
  correct_answers s' = 0%nat /\ current_question s' = 0%nat /\
  quiz_finished s' = false /\ question_answered s' = false /\
  last_user_answer s' = None /\ last_answer_correct s' = None.
Proof. by repeat split. Qed.

(** C5. Submitting while the current question is already answered, or
    after the session is finished, returns the session as it was. So of
    two submissions in a row to an open question the first records one
    answer and raises the correct-count by at most one, and the second
    changes nothing. *)
Theorem answer_question_guard :
  (forall a s,
     question_answered s = true \/ quiz_finished s = true ->
     answer_question a s = Returns s) /\
  (forall a b s,
     quiz_finished s = false -> question_answered s = false ->
     (current_question s < length (questions s))%nat ->
     exists s1,
       answer_question a s = Returns s1 /\
       answer_question b s1 = Returns s1 /\
       length (user_answers s1) = S (length (user_answers s)) /\
       (correct_answers s <= correct_answers s1 <= correct_answers s + 1)%nat).
Proof.
  split.
  - intros a s [H|H]; unfold answer_question; rewrite H; [|done].
    by rewrite orb_true_r.
  - intros a b s Hf Ha Hlt. unfold answer_question at 1. rewrite Hf, Ha.
    destruct (lookup_lt_is_Some_2 _ _ Hlt) as [q ->]. cbn.
    eexists. split; [done|]. split.
    + unfold answer_question. cbn [quiz_finished question_answered].
      by rewrite orb_true_r.
    + cbn. rewrite length_app. cbn. destruct (String.eqb a (gabarito q)); lia.
Qed.

Lemma answer_question_guard_witness :
  exists s1,
    answer_question "a" Sample.started = Returns s1 /\
    answer_question "b" s1 = Returns s1 /\
    length (user_answers s1) = 1%nat /\
    answer_question "c" s1 = Returns s1.
Proof.
  destruct (proj2 answer_question_guard "a"%string "b"%string Sample.started)
    as (s1 & H1 & H2 & H3 & _); [reflexivity|reflexivity|vm_compute; lia|].
  exists s1. split; [exact H1|]. split; [exact H2|]. split; [exact H3|].
  apply (proj1 answer_question_guard). left.
  vm_compute in H1. by injection H1 as <-.
Defined.

(** C2, as stated, fails: [next_question] has no guard. On a quiz just
    started, with its first question still open, it moves to the second
    question; on a finished one it keeps counting. *)
Lemma next_question_unguarded :
  (question_answered Sample.started = false /\
   next_question Sample.started <> Sample.started) /\
  (let finished := perform_all [NextQuestion; NextQuestion] Sample.started in
   quiz_finished finished = true /\ next_question finished <> finished).
Proof.
  split; (split; [reflexivity|]); intros H;
    apply (f_equal current_question) in H; vm_compute in H; discriminate.
Qed.

(** C2 (as amended). The advance is guarded by the page: the button that
    calls [next_question] is drawn only on the question screen and only
    once the current question is answered, so an advance attempted while
    the question is unanswered or after the session is finished leaves the
    whole session as it was. [next_question] itself is unconditional; it
    moves the position forward by one and clears the answered flag, and it
    never touches the question list, the answer log, the correct-count or
    the started flag. *)
Theorem advance_guarded_by_page s :
  (question_answered s = false \/ quiz_finished s = true ->
   press_next_question s = s) /\
  (main s = QuestionScreen ->
   is_Some (questions s !! current_question s) ->
   question_answered s = true ->
   press_next_question s = next_question s) /\
  questions (next_question s) = questions s /\
  user_answers (next_question s) = user_answers s /\
  correct_answers (next_question s) = correct_answers s /\
  quiz_started (next_question s) = quiz_started s /\
  current_question (next_question s) = S (current_question s) /\
  question_answered (next_question s) = false.
Proof.
  split; [|split; [|by repeat split; cbn; try lia]].
  - unfold press_next_question, main.
    intros [H|H]; rewrite H; destruct (quiz_started s); cbn; try done.
    destruct (quiz_finished s); [done|].
    destruct (nonempty (questions s)); [|done]. cbn.
    by destruct (questions s !! current_question s).
  - unfold press_next_question. intros -> [q Hq] ->. rewrite Hq.
    by destruct (questions s).
Qed.

Lemma advance_guarded_by_page_witness :
  press_next_question Sample.started = Sample.started /\
  (let answered := perform (AnswerQuestion "a") Sample.started in
   press_next_question answered = next_question answered).
Proof.
  split.
  - apply (advance_guarded_by_page Sample.started). left. reflexivity.
  - apply (advance_guarded_by_page (perform (AnswerQuestion "a") Sample.started));
      [reflexivity|by eexists|reflexivity].
Defined.

(** ** Invariants of the session *)

Lemma start_quiz_cases fs N s e :
  (start_quiz fs N s e).1 = s \/
  exists qs, qs <> [] /\
    (start_quiz fs N s e).1 =
      {| quiz_started := true; questions := qs; current_question := 0;
         correct_answers := 0; user_answers := []; quiz_finished := false;
         question_answered := false; last_user_answer := None;
         last_answer_correct := None |}.
Proof.
  unfold start_quiz, mbind, Run_bind, mret, Run_ret.
  destruct (QuestionManager.prepare_questions fs N e) as [[|q qs] e']; cbn.
  - by left.
  - right. by exists (q :: qs).
Qed.

Lemma answer_question_cases a s :
  answer_question a s = Returns s \/
  answer_question a s = Raises IndexError \/
  exists q,
    questions s !! current_question s = Some q /\
    answer_question a s =
      Returns
        {| quiz_started := quiz_started s; questions := questions s;
           current_question := current_question s;
           correct_answers :=
             if String.eqb a (gabarito q) then (correct_answers s + 1)%nat
             else correct_answers s;
           user_answers :=
             user_answers s ++
               [ {| question := q; user_answer := a;
                    correct_answer := gabarito q;
                    is_correct := String.eqb a (gabarito q) |} ];
           quiz_finished := quiz_finished s; question_answered := true;
           last_user_answer := Some a;
           last_answer_correct := Some (String.eqb a (gabarito q)) |}.
Proof.
  unfold answer_question.
  destruct (quiz_finished s || question_answered s); [by left|].
  destruct (questions s !! current_question s) as [q|]; [|by right; left].
  right; right. by exists q.
Qed.

(** A property that holds of the fresh session and that every call
    preserves holds of every reachable session. *)
Lemma reachable_ind (I : SessionState -> Prop) :
  I (initialize_session_state None) ->
  (forall c s, I s -> I (perform c s)) ->
  forall s, reachable s -> I s.
Proof.
  intros Hinit Hstep s [cs ->]. unfold perform_all.
  generalize dependent (initialize_session_state None).
  induction cs as [|c cs IH]; intros s0 Hs0; cbn; [done|].
  apply IH, Hstep, Hs0.
Qed.

Lemma perform_position_in_bounds c s :
  position_in_bounds s -> position_in_bounds (perform c s).
Proof.
  unfold position_in_bounds. intros Hs.
  destruct c as [fs N e|a| |]; cbn [perform].
  - destruct (start_quiz_cases fs N s e) as [->|(qs & Hqs & ->)]; [done|].
    cbn. intros _ _. destruct qs; [done|cbn; lia].
  - destruct (answer_question_cases a s) as [->|[->|(q & _ & ->)]]; done.
  - cbn. destruct (Nat.leb_spec (length (questions s)) (current_question s + 1));
      [done|lia].
  - done.
Qed.

(** C9. In every session reachable by any sequence of the four handlers,
    a quiz that is started and not finished has its position strictly
    below the number of selected questions, so the lookup of the current
    question succeeds and [answer_question] does not raise. *)
Theorem current_question_in_bounds s :
  reachable s ->
  quiz_started s = true -> quiz_finished s = false ->
  (current_question s < length (questions s))%nat /\
  is_Some (questions s !! current_question s) /\
  forall a, exists s', answer_question a s = Returns s'.
Proof.
  intros Hreach Hstarted Hfinished.
  assert (current_question s < length (questions s))%nat as Hlt.
  { revert Hstarted Hfinished. revert s Hreach.
    apply (reachable_ind position_in_bounds); [done|].
    apply perform_position_in_bounds. }
  split; [done|]. split; [by apply lookup_lt_is_Some_2|].
  intros a. destruct (answer_question_cases a s) as [H|[H|(q & _ & H)]]; eauto.
  unfold answer_question in H.
  destruct (quiz_finished s || question_answered s); [done|].
  destruct (lookup_lt_is_Some_2 _ _ Hlt) as [q Hq]. by rewrite Hq in H.
Qed.

Lemma current_question_in_bounds_witness :
  (current_question Sample.started < length (questions Sample.started))%nat.
Proof.
  apply (current_question_in_bounds Sample.started); [|reflexivity|reflexivity].
  exists [StartQuiz (Sample.files (Table (Sample.bank 1 2 "a")) Absent) 10 Sample.env].
  reflexivity.
Defined.

Lemma count_correct_snoc log r :
  count_correct (log ++ [r]) =
    if is_correct r then (count_correct log + 1)%nat else count_correct log.
Proof.
  unfold count_correct. rewrite filter_app, length_app.
  destruct (is_correct r) eqn:Hr.
  - by rewrite filter_cons_True.
  - rewrite filter_cons_False by congruence. cbn. lia.
Qed.

Lemma perform_log_consistent c s :
  log_consistent s -> log_consistent (perform c s).
Proof.
  unfold log_consistent. intros [Hcount Hlog].
  destruct c as [fs N e|a| |]; cbn [perform]; try done.
  - by destruct (start_quiz_cases fs N s e) as [->|(qs & _ & ->)].
  - destruct (answer_question_cases a s) as [->|[->|(q & _ & ->)]]; try done.
    cbn [correct_answers user_answers]. split.
    + rewrite count_correct_snoc. cbn [is_correct]. rewrite Hcount.
      by destruct (String.eqb a (gabarito q)).
    + apply Forall_app. split; [done|]. apply Forall_singleton.
      split; [|done]. cbn [is_correct user_answer question].
      apply String.eqb_eq.
Qed.

(** C10. In every session reachable by any sequence of the four handlers
    the correct-count is the number of entries of the answer log flagged
    correct, and an entry is flagged correct exactly when its submitted
    letter is, as a string, the key of its question. *)
Theorem correct_answers_counts_log s :
  reachable s ->
  correct_answers s =
    length (filter (fun r => is_correct r = true) (user_answers s)) /\
  Forall (fun r => is_correct r = true <-> user_answer r = gabarito (question r))
         (user_answers s).
Proof.
  intros Hreach.
  assert (log_consistent s) as [Hcount Hlog].
  { revert s Hreach. apply (reachable_ind log_consistent).
    - split; [done|constructor].
    - apply perform_log_consistent. }
  split; [done|]. eapply Forall_impl; [exact Hlog|]. by intros r [Hr _].
Qed.

Lemma correct_answers_counts_log_witness :
  let s := perform_all [AnswerQuestion "a"; NextQuestion; AnswerQuestion "A"]
             Sample.started in
  correct_answers s = 1%nat /\ length (user_answers s) = 2%nat.
Proof.
  cbv zeta. split; [|reflexivity].
  etransitivity.
  - apply correct_answers_counts_log.
    exists [StartQuiz (Sample.files (Table (Sample.bank 1 2 "a")) Absent) 10 Sample.env;
            AnswerQuestion "a"; NextQuestion; AnswerQuestion "A"].
    reflexivity.
  - reflexivity.
Defined.

(** ** The selector's product in binary64 *)

(** The 0.6 of the program, and two percentages Python is known for. *)
Example binary64_samples :
  Binary64.round (6 # 10) = 5404319552844595 # 9007199254740992 /\
  Binary64.mul (Binary64.Finite (Binary64.round (7 # 10))) 100 =
    Binary64.Finite 70 /\
  Binary64.mul (Binary64.Finite (Binary64.round (29 # 100))) 100 =
    Binary64.Finite (8162774324609023 # 281474976710656).
Proof. by vm_compute. Qed.

Lemma forallb_range (P : Z -> bool) (n : nat) :
  forallb (fun i => P (Z.of_nat i)) (seq 0 (S n)) = true ->
  forall z, 0 <= z <= Z.of_nat n -> P z = true.
Proof.
  intros Hall z Hz. rewrite forallb_forall in Hall.
  rewrite <-(Z2Nat.id z) by lia. apply Hall, in_seq. lia.
Qed.

(** Up to a thousand questions the rounded product truncates to the same
    number of specific questions as the exact one. *)
Lemma num_specific_binary64 N :
  0 <= N <= 1000 -> Binary64.num_specific N = num_specific N.
Proof.
  intros HN. apply Z.eqb_eq.
  apply (forallb_range (fun N => Binary64.num_specific N =? num_specific N) 1000);
    [by vm_compute|lia].
Qed.

(** * Further properties of the code *)

(** ** The store and the selector *)

Lemma load_questions_eq fs p e :
  DatabaseManager.load_questions fs p e =
    (pool fs p, {| rng := rng e; shown := shown e ++ load_messages fs p |}).
Proof.
  unfold DatabaseManager.load_questions, pool, load_messages.
  destruct e as [g sh]. destruct (fs p); cbn; try done.
  by rewrite app_nil_r.
Qed.

Lemma prepare_questions_shown_eq fs N e :
  shown (QuestionManager.prepare_questions fs N e).2 =
    shown e ++ load_messages fs DatabasePath.SPECIFIC_QUESTIONS ++
    load_messages fs DatabasePath.GENERAL_QUESTIONS ++
    (if negb (nonempty (pool fs DatabasePath.SPECIFIC_QUESTIONS)) &&
        negb (nonempty (pool fs DatabasePath.GENERAL_QUESTIONS))
     then ["Nenhuma questão encontrada nos bancos de dados!"] else []).
Proof.
  unfold QuestionManager.prepare_questions, mbind, Run_bind, mret, Run_ret.
  rewrite !load_questions_eq. cbn [rng shown].
  set (m1 := load_messages fs DatabasePath.SPECIFIC_QUESTIONS).
  set (m2 := load_messages fs DatabasePath.GENERAL_QUESTIONS).
  set (sh := (shown e ++ m1) ++ m2).
  assert (sh ++ [] = shown e ++ m1 ++ m2 ++ []) as Hsh
    by (unfold sh; by rewrite !app_nil_r, <-app_assoc).
  destruct (pool fs DatabasePath.SPECIFIC_QUESTIONS) as [|q0 qs];
    destruct (pool fs DatabasePath.GENERAL_QUESTIONS) as [|p0 ps];
    cbn [nonempty negb andb]; unfold Run; cbv beta;
    rewrite ?random_shuffle_eq; cbn [fst snd rng shown].
  - unfold st_error. cbn. unfold sh. by rewrite <-!app_assoc.
  - destruct (0 <? _); cbv beta; destruct (_ <? N);
      rewrite ?random_shuffle_eq; cbn [fst snd rng shown];
      rewrite ?random_shuffle_eq; cbn [fst snd rng shown];
      by rewrite <-Hsh, app_nil_r.
  - destruct (_ <? N);
      rewrite ?random_shuffle_eq; cbn [fst snd rng shown];
      rewrite ?random_shuffle_eq; cbn [fst snd rng shown];
      by rewrite <-Hsh, app_nil_r.
  - destruct (0 <? _); cbv beta; destruct (_ <? N);
      rewrite ?random_shuffle_eq; cbn [fst snd rng shown];
      rewrite ?random_shuffle_eq; cbn [fst snd rng shown];
      by rewrite <-Hsh, app_nil_r.
Qed.



(** X2. [prepare_questions] shows one message for each file it could not
    use, in the order specific, general, then its own error if no question
    was found at all, and nothing else: the shuffles and the selection are
    silent. With two readable tables that are not both empty the page
    stays as it was. *)
Theorem prepare_questions_reports fs N e :
  shown (QuestionManager.prepare_questions fs N e).2 =
    shown e ++ load_messages fs DatabasePath.SPECIFIC_QUESTIONS ++
    load_messages fs DatabasePath.GENERAL_QUESTIONS ++
    (if negb (nonempty (pool fs DatabasePath.SPECIFIC_QUESTIONS)) &&
        negb (nonempty (pool fs DatabasePath.GENERAL_QUESTIONS))
     then ["Nenhuma questão encontrada nos bancos de dados!"] else []) /\
  (forall rows1 rows2,
     fs DatabasePath.SPECIFIC_QUESTIONS = Table rows1 ->
     fs DatabasePath.GENERAL_QUESTIONS = Table rows2 ->
     ~ (rows1 = [] /\ rows2 = []) ->
     shown (QuestionManager.prepare_questions fs N e).2 = shown e).
Proof.
  split; [apply prepare_questions_shown_eq|].
  intros rows1 rows2 H1 H2 Hrows. rewrite prepare_questions_shown_eq.
  unfold load_messages, pool. rewrite H1, H2.
  destruct rows1, rows2; cbn; rewrite ?app_nil_r; try done.
  by destruct Hrows.
Qed.

Lemma prepare_questions_reports_witness :
  shown (QuestionManager.prepare_questions Sample.full_banks 10 Sample.env).2 = [] /\
  shown (QuestionManager.prepare_questions Scenario.only_specific 10 Sample.env).2 =
    ["Erro ao carregar questões: database disk image is malformed"].
Proof.
  split.
  - refine (proj2 (prepare_questions_reports Sample.full_banks 10 Sample.env)
              _ _ eq_refl eq_refl _).
    by intros [H _].
  - exact (proj1 (prepare_questions_reports Scenario.only_specific 10 Sample.env)).
Defined.

(** X3. With enough supply in both pools the share is exact: for N >= 0,
    at least N×0.6 specific and N×0.4 general questions, the result is a
    rearrangement of exactly floor(N×0.6) questions drawn from the specific
    pool and exactly N - floor(N×0.6) drawn from the general pool. *)
Theorem prepare_questions_exact_share fs N e :
  let specific := pool fs DatabasePath.SPECIFIC_QUESTIONS in
  let general := pool fs DatabasePath.GENERAL_QUESTIONS in
  let r := (QuestionManager.prepare_questions fs N e).1 in
  0 <= N ->
  3 * N <= 5 * Z.of_nat (length specific) ->
  2 * N <= 5 * Z.of_nat (length general) ->
  exists picked rest,
    r ≡ₚ picked ++ rest /\ picked ⊆+ specific /\ rest ⊆+ general /\
    Z.of_nat (length picked) = 3 * N / 5 /\
    Z.of_nat (length rest) = N - 3 * N / 5.
Proof.
  intros specific general r HN HS HG.
  pose proof (Z.mul_div_le (3 * N) 5) as Hlo.
  pose proof (Z.mod_pos_bound (3 * N) 5) as Hmod.
  pose proof (Z.div_mod (3 * N) 5) as Hdm.
  assert (0 <= 3 * N / 5) as Hpos by (apply Z.div_pos; lia).
  pose proof (prepare_questions_run fs N e) as H. cbv zeta in H.
  fold specific general r in H.
  destruct (negb (nonempty specific) && negb (nonempty general)) eqn:Hboth.
  - apply both_empty_iff in Hboth as [Hs Hg]. rewrite Hs, Hg in *.
    cbn [length] in HS, HG. exists [], []. rewrite H.
    assert (N = 0) as -> by lia. by repeat split.
  - destruct H as (s' & g' & Hs & Hg & H).
    pose proof (Permutation_length Hs) as Hls.
    pose proof (Permutation_length Hg) as Hlg.
    pose proof (ratio_draw_length N s' g' HN) as Hlen.
    unfold ratio_draw_size in Hlen. rewrite Qfloor_ratio in Hlen.
    destruct (Z.ltb_spec (Z.of_nat (length (ratio_draw N s' g'))) N); [lia|].
    rewrite (ratio_draw_nonneg N s' g' HN) in H.
    eexists _, _. split; [exact H|].
    split; [rewrite <-Hs; apply sublist_submseteq, sublist_take|].
    split; [rewrite <-Hg; apply sublist_submseteq, sublist_take|].
    rewrite !length_take. lia.
Qed.

Lemma prepare_questions_exact_share_witness :
  exists picked rest,
    (QuestionManager.prepare_questions Sample.full_banks 10 Sample.env).1
      ≡ₚ picked ++ rest /\
    length picked = 6%nat /\ length rest = 4%nat.
Proof.
  destruct (prepare_questions_exact_share Sample.full_banks 10 Sample.env)
    as (picked & rest & H & _ & _ & Hp & Hr);
    [lia|vm_compute; discriminate|vm_compute; discriminate|].
  exists picked, rest. split; [exact H|].
  change (3 * 10 / 5) with 6 in Hp, Hr. lia.
Defined.



(** ** Starting *)




(** ** Scoring *)

(** X6. For every score of a quiz of up to 2^48 questions, C correct out
    of T with 0 <= C <= T and 0 < T <= 2^48, the scorer returns, and the
    tier it returns is decided by integer comparisons, the two roundings
    of the percentage notwithstanding: excellent exactly when
    10·C >= 7·T, good exactly when 2·C >= T but 10·C < 7·T,
    needs_improvement exactly when 2·C < T. *)
Theorem evaluate_performance_integer_tiers C T :
  0 <= C <= T -> 0 < T <= 2 ^ 48 ->
  exists P tier message,
    PerformanceEvaluator.evaluate_performance C T =
      Binary64.Value (P, tier, message) /\
    (tier = EXCELLENT <-> 7 * T <= 10 * C) /\
    (tier = GOOD <-> T <= 2 * C /\ 10 * C < 7 * T) /\
    (tier = NEEDS_IMPROVEMENT <-> 2 * C < T).
Proof.
  intros HC HT.
  destruct (evaluate_performance_exact_tier C T HC HT)
    as (P & message & Heval).
  exists (Binary64.Finite P), (exact_tier C T), message.
  split; [done|]. unfold exact_tier.
  destruct (Z.leb_spec (7 * T) (10 * C)); [|destruct (Z.leb_spec T (2 * C))].
  all: split_and!; split; intros ?; try done; lia.
Qed.

Lemma evaluate_performance_integer_tiers_witness :
  exists P message,
    PerformanceEvaluator.evaluate_performance 2 3 =
      Binary64.Value (P, GOOD, message).
Proof.
  destruct (evaluate_performance_integer_tiers 2 3)
    as (P & tier & message & Heval & _ & Hgood & _); [lia|lia|].
  exists P, message. rewrite Heval. repeat f_equal. apply Hgood. lia.
Defined.

(** ** The session under the four handlers *)

Lemma perform_session_sound c s :
  session_sound s -> session_sound (perform c s).
Proof.
  unfold session_sound. intros (Hc & Hlog & Hq & Hfin & Hopen & Hans).
  destruct c as [fs N e|a| |]; cbn [perform].
  - destruct (start_quiz_cases fs N s e) as [->|(qs & Hqs & ->)]; [done|].
    cbn. split_and!; try done; try lia.
    intros _. destruct qs; [done|]. cbn [length].
    split; intros H; [discriminate H|exfalso; lia].
  - unfold answer_question.
    destruct (quiz_finished s) eqn:Hf; [cbn [orb]; by rewrite Hf|].
    destruct (question_answered s) eqn:Ha; [cbn [orb]; by rewrite Hf, Ha|].
    cbn [orb].
    destruct (questions s !! current_question s) as [q|] eqn:Hlook;
      [|by rewrite Hf, Ha].
    apply lookup_lt_Some in Hlook as Hlt. cbn in Hlog |- *.
    rewrite length_app. cbn [length].
    split_and!; try done; try lia.
    + destruct (String.eqb a (gabarito q)); lia.
    + intros _. exists q, a. by rewrite last_snoc.
  - cbn. split_and!; try done; try lia.
    + destruct (question_answered s); cbn in Hlog; lia.
    + intros Hs. specialize (Hfin Hs).
      destruct (Nat.leb_spec (length (questions s)) (current_question s + 1)).
      * done.
      * split; intros Hf; [apply Hfin in Hf|exfalso]; lia.
  - cbn. split_and!; try done; try lia.
Qed.

Lemma reachable_session_sound s : reachable s -> session_sound s.
Proof.
  revert s. apply (reachable_ind session_sound).
  - unfold session_sound. cbn. split_and!; try done; try lia.
  - apply perform_session_sound.
Qed.

Lemma evaluate_performance_session s :
  reachable s ->
  exists P level message,
    PerformanceEvaluator.evaluate_performance
      (Z.of_nat (correct_answers s)) (Z.of_nat (length (questions s))) =
      Binary64.Value (Binary64.Finite P, level, message) /\
    (0 <= P)%Q /\ (P <= 100)%Q.
Proof.
  intros Hreach.
  destruct (reachable_session_sound s Hreach) as (Hc & _ & Hq & _).
  destruct (length (questions s)) as [|n] eqn:Hlen.
  - by eexists _, _, _.
  - apply evaluate_performance_score; lia.
Qed.

(** X7. In every session the four handlers can produce, the correct-count
    is at most the number of recorded answers, which is at most the number
    of questions and at most one answer per position reached; so the
    scorer, given the correct-count and the number of questions as the
    results screen gives them, returns a finite percentage between 0 and
    100. *)
Theorem score_within_bounds s :
  reachable s ->
  (correct_answers s <= length (user_answers s))%nat /\
  (length (user_answers s) <= length (questions s))%nat /\
  (length (user_answers s) <=
     current_question s + Nat.b2n (question_answered s))%nat /\
  exists P level message,
    PerformanceEvaluator.evaluate_performance
      (Z.of_nat (correct_answers s)) (Z.of_nat (length (questions s))) =
      Binary64.Value (Binary64.Finite P, level, message) /\
    (0 <= P)%Q /\ (P <= 100)%Q.
Proof.
  intros Hreach.
  destruct (reachable_session_sound s Hreach) as (Hc & Hlog & Hq & _).
  split_and!; try done. by apply evaluate_performance_session.
Qed.

Lemma score_within_bounds_witness :
  let s := perform_all [AnswerQuestion "a"; NextQuestion; AnswerQuestion "A"]
             Sample.started in
  (correct_answers s <= length (user_answers s))%nat /\
  (length (user_answers s) <= length (questions s))%nat.
Proof.
  cbv zeta.
  destruct (score_within_bounds
    (perform_all [AnswerQuestion "a"; NextQuestion; AnswerQuestion "A"]
       Sample.started)) as (H1 & H2 & _).
  - exists [StartQuiz (Sample.files (Table (Sample.bank 1 2 "a")) Absent) 10 Sample.env;
            AnswerQuestion "a"; NextQuestion; AnswerQuestion "A"].
    reflexivity.
  - split; [exact H1|exact H2].
Defined.

(** X8. In every session the four handlers can produce, a started quiz is
    finished exactly when the position has reached the number of
    questions: the results screen is shown then and only then. *)
Theorem finished_iff_past_end s :
  reachable s -> quiz_started s = true ->
  (quiz_finished s = true <->
   (length (questions s) <= current_question s)%nat) /\
  (main s = FinalResults <->
   (length (questions s) <= current_question s)%nat).
Proof.
  intros Hreach Hstarted.
  destruct (reachable_session_sound s Hreach) as (_ & _ & _ & Hfin & _).
  specialize (Hfin Hstarted). split; [done|].
  unfold main. rewrite Hstarted. cbn [negb].
  destruct (quiz_finished s); split; intros H; try done.
  - by apply Hfin.
  - apply Hfin in H. discriminate.
Qed.

Lemma finished_iff_past_end_witness :
  main (perform_all [NextQuestion; NextQuestion] Sample.started) = FinalResults.
Proof.
  apply (finished_iff_past_end
           (perform_all [NextQuestion; NextQuestion] Sample.started)).
  - exists [StartQuiz (Sample.files (Table (Sample.bank 1 2 "a")) Absent) 10 Sample.env;
            NextQuestion; NextQuestion].
    reflexivity.
  - reflexivity.
  - vm_compute. lia.
Defined.

(** X9. In every session the four handlers can produce, the last answer
    and its verdict are set exactly while the current question is
    answered, and then they are the letter and the flag of the last entry
    of the answer log, which is about the current question. *)
Theorem feedback_matches_log s :
  reachable s ->
  (question_answered s = false ->
   last_user_answer s = None /\ last_answer_correct s = None) /\
  (question_answered s = true ->
   exists q a,
     questions s !! current_question s = Some q /\
     last_user_answer s = Some a /\
     last_answer_correct s = Some (String.eqb a (gabarito q)) /\
     last (user_answers s) =
       Some {| question := q; user_answer := a; correct_answer := gabarito q;
               is_correct := String.eqb a (gabarito q) |}).
Proof.
  intros Hreach.
  by destruct (reachable_session_sound s Hreach) as (_ & _ & _ & _ & ? & ?).
Qed.

Lemma feedback_matches_log_witness :
  last_user_answer (perform (AnswerQuestion "b") Sample.started) = Some "b"%string /\
  last_user_answer (perform NextQuestion (perform (AnswerQuestion "b") Sample.started))
    = None.
Proof.
  split.
  - destruct (feedback_matches_log (perform (AnswerQuestion "b") Sample.started))
      as [_ H].
    + exists [StartQuiz (Sample.files (Table (Sample.bank 1 2 "a")) Absent) 10 Sample.env;
              AnswerQuestion "b"].
      reflexivity.
    + destruct H as (q & a & _ & Ha & _ & Hlast); [reflexivity|].
      rewrite Ha. vm_compute in Hlast. by injection Hlast as _ <-.
  - apply (feedback_matches_log
             (perform NextQuestion (perform (AnswerQuestion "b") Sample.started))).
    + exists [StartQuiz (Sample.files (Table (Sample.bank 1 2 "a")) Absent) 10 Sample.env;
              AnswerQuestion "b"; NextQuestion].
      reflexivity.
    + reflexivity.
Defined.

(** ** The question screen *)

Lemma main_question_screen s :
  main s = QuestionScreen <-> quiz_started s = true /\ quiz_finished s = false.
Proof.
  unfold main. destruct (quiz_started s), (quiz_finished s); cbn;
    intuition discriminate.
Qed.

Lemma main_final_results s :
  main s = FinalResults <-> quiz_started s = true /\ quiz_finished s = true.
Proof.
  unfold main. destruct (quiz_started s), (quiz_finished s); cbn;
    intuition discriminate.
Qed.

Lemma main_initial_screen s :
  main s = InitialScreen <-> quiz_started s = false.
Proof.
  unfold main. destruct (quiz_started s), (quiz_finished s); cbn;
    intuition discriminate.
Qed.

Lemma reachable_position_in_bounds s : reachable s -> position_in_bounds s.
Proof.
  revert s. apply (reachable_ind position_in_bounds); [done|].
  apply perform_position_in_bounds.
Qed.

Lemma alternative_button_fields s q letter text :
  button_letter (alternative_button s q (letter, text)) = letter /\
  button_text (alternative_button s q (letter, text)) = text /\
  button_key (alternative_button s q (letter, text)) = (letter, current_question s) /\
  button_disabled (alternative_button s q (letter, text)) = question_answered s.
Proof.
  unfold alternative_button.
  destruct (question_answered s); [|done].
  destruct (String.eqb letter (gabarito q)); [done|].
  by destruct (_ && _).
Qed.

Lemma alternative_buttons_letters s q :
  button_letter <$> (alternative_button s q <$> get_alternatives q) = letters /\
  Forall (fun b => button_disabled b = question_answered s)
         (alternative_button s q <$> get_alternatives q).
Proof.
  unfold get_alternatives, letters. cbn [fmap list_fmap]. split.
  - f_equal; [|f_equal; [|f_equal; [|f_equal]]]; apply alternative_button_fields.
  - repeat constructor; apply alternative_button_fields.
Qed.

Lemma progress_range (c t : nat) :
  (c < t)%nat ->
  (0 < inject_Z (Z.of_nat (c + 1)) / inject_Z (Z.of_nat t))%Q /\
  (inject_Z (Z.of_nat (c + 1)) / inject_Z (Z.of_nat t) <= 1)%Q.
Proof.
  intros Hlt. destruct (Z.of_nat t) as [|p|p] eqn:Ht; try lia.
  unfold Qlt, Qle, Qdiv, Qmult, Qinv, inject_Z. cbn [Qnum Qden Z.sgn].
  rewrite ?Pos2Z.inj_mul. lia.
Qed.

(** X10. In every session the four handlers can produce, the question
    screen, when it is the one shown, is drawn in full: the lookup of the
    current question does not raise, nor does the feedback box; the
    progress passed to the bar is above 0 and at most 1; there are four
    answer buttons, a to d in order, disabled exactly when the question is
    answered; and the next button and the feedback box are there exactly
    when the question is answered. *)
Theorem question_screen_renders s :
  reachable s -> main s = QuestionScreen ->
  exists q page,
    questions s !! current_question s = Some q /\
    show_question_screen s = Rendered (Some page) /\
    (0 < page_progress page)%Q /\ (page_progress page <= 1)%Q /\
    button_letter <$> page_alternatives page = letters /\
    Forall (fun b => button_disabled b = question_answered s)
           (page_alternatives page) /\
    page_next page = question_answered s /\
    (is_Some (page_feedback page) <-> question_answered s = true).
Proof.
  intros Hreach Hmain. apply main_question_screen in Hmain as [Hs Hf].
  pose proof (reachable_position_in_bounds s Hreach Hs Hf) as Hlt.
  destruct (reachable_session_sound s Hreach) as (_ & _ & _ & _ & _ & Hans).
  destruct (lookup_lt_is_Some_2 _ _ Hlt) as [q Hq].
  destruct (progress_range _ _ Hlt) as [Hp0 Hp1].
  unfold show_question_screen. rewrite Hq.
  assert (nonempty (questions s) = true) as ->
    by (destruct (questions s); [cbn in Hlt; lia|done]).
  cbn [negb].
  destruct (alternative_buttons_letters s q) as [Hletters Hdisabled].
  destruct (question_answered s) eqn:Ha.
  - destruct Hans as (q' & a & _ & -> & _); [done|].
    destruct (bool_decide _); eexists q, _; (split; [done|]);
      (split; [done|]); cbn [page_progress page_alternatives page_next
                             page_feedback]; split_and!; try done;
      by split.
  - eexists q, _. split; [done|]. split; [done|].
    cbn [page_progress page_alternatives page_next page_feedback].
    by split_and!.
Qed.

Lemma question_screen_renders_witness :
  exists page,
    show_question_screen Sample.started = Rendered (Some page) /\
    page_next page = false.
Proof.
  destruct (question_screen_renders Sample.started)
    as (q & page & _ & Hpage & _ & _ & _ & _ & Hnext & _).
  - exists [StartQuiz (Sample.files (Table (Sample.bank 1 2 "a")) Absent) 10 Sample.env].
    reflexivity.
  - reflexivity.
  - exists page. split; [exact Hpage|exact Hnext].
Defined.

(** ** The session under the presses *)

Lemma reachable_perform c s : reachable s -> reachable (perform c s).
Proof.
  intros [cs ->]. exists (cs ++ [c]). unfold perform_all.
  by rewrite foldl_app.
Qed.

Lemma show_question_screen_rendered s page :
  show_question_screen s = Rendered (Some page) ->
  exists q,
    questions s !! current_question s = Some q /\
    page_alternatives page = alternative_button s q <$> get_alternatives q /\
    page_next page = question_answered s.
Proof.
  unfold show_question_screen.
  destruct (nonempty (questions s)); [|done]. cbn [negb].
  destruct (questions s !! current_question s) as [q|]; [|done].
  intros H. exists q. split; [done|].
  destruct (question_answered s); [|by simplify_eq].
  destruct (bool_decide _); [by simplify_eq|].
  destruct (last_user_answer s); by simplify_eq.
Qed.

Lemma press_alternative_cases letter s :
  press_alternative letter s = s \/
  (main s = QuestionScreen /\ letter ∈ letters /\
   question_answered s = false /\
   exists q,
     questions s !! current_question s = Some q /\
     answer_question letter s = Returns (press_alternative letter s) /\
     press_alternative letter s =
       {| quiz_started := quiz_started s; questions := questions s;
          current_question := current_question s;
          correct_answers :=
            if String.eqb letter (gabarito q) then (correct_answers s + 1)%nat
            else correct_answers s;
          user_answers :=
            user_answers s ++
              [ {| question := q; user_answer := letter;
                   correct_answer := gabarito q;
                   is_correct := String.eqb letter (gabarito q) |} ];
          quiz_finished := quiz_finished s; question_answered := true;
          last_user_answer := Some letter;
          last_answer_correct := Some (String.eqb letter (gabarito q)) |}).
Proof.
  unfold press_alternative.
  destruct (main s) eqn:Hmain; try by left.
  apply main_question_screen in Hmain as [Hs Hf].
  destruct (show_question_screen s) as [[page|]|] eqn:Hshow; try by left.
  apply show_question_screen_rendered in Hshow as (q & Hq & Halt & _).
  destruct (list_find _ _) as [[i b]|] eqn:Hfind; [|by left].
  apply list_find_Some in Hfind as (Hb & Hletter & _).
  apply list_elem_of_lookup_2 in Hb. rewrite Halt in Hb.
  destruct (alternative_buttons_letters s q) as [Hletters Hdisabled].
  assert (button_disabled b = question_answered s) as ->
    by (by eapply Forall_forall in Hdisabled).
  assert (letter ∈ letters) as Hin.
  { rewrite <-Hletters, <-Hletter. by apply list_elem_of_fmap_2. }
  destruct (question_answered s) eqn:Ha; [by left|]. cbn [negb].
  unfold answer_question. rewrite Hf, Ha, Hq. cbn [orb].
  right. split; [done|]. split; [done|].
  split; [done|]. by exists q.
Qed.

Lemma press_next_question_cases s :
  press_next_question s = s \/
  (main s = QuestionScreen /\ question_answered s = true /\
   is_Some (questions s !! current_question s) /\
   press_next_question s = next_question s).
Proof.
  unfold press_next_question.
  destruct (main s) eqn:Hmain; try by left.
  destruct (nonempty (questions s)); [|by left]. cbn [negb].
  destruct (questions s !! current_question s) as [q|] eqn:Hq; [|by left].
  destruct (question_answered s); [|by left].
  right. by split_and!.
Qed.

Lemma press_restart_cases s :
  press_restart s = s \/ press_restart s = reset_quiz s.
Proof.
  unfold press_restart. destruct (main s); try by left.
  destruct (show_final_results s) as [page|]; [|by left].
  destruct (results_restart page); [by right|by left].
Qed.

Lemma press_reachable p s : reachable s -> reachable (press p s).
Proof.
  intros Hreach. destruct p as [fs N e|letter| |]; cbn [press].
  - unfold press_start. destruct (main s); try done.
    destruct (bool_decide _); [|done].
    by apply (reachable_perform (StartQuiz fs N e)).
  - destruct (press_alternative_cases letter s)
      as [->|(_ & _ & _ & q & _ & Hans & _)]; [done|].
    pose proof (reachable_perform (AnswerQuestion letter) s Hreach) as H.
    cbn [perform] in H. by rewrite Hans in H.
  - destruct (press_next_question_cases s) as [->|(_ & _ & _ & ->)]; [done|].
    by apply (reachable_perform NextQuestion).
  - destruct (press_restart_cases s) as [->| ->]; [done|].
    by apply (reachable_perform ResetQuiz).
Qed.

Lemma press_page_sound p s :
  page_sound s -> page_sound (press p s).
Proof.
  unfold page_sound. intros (Hinit & Hle & Hlog & Hletters).
  destruct p as [fs N e|letter| |]; cbn [press].
  - unfold press_start. destruct (main s) eqn:Hmain; try done.
    destruct (bool_decide _); [|done].
    destruct (start_quiz_cases fs N s e) as [->|(qs & _ & ->)]; [done|].
    cbn. split_and!; try done; try lia.
  - destruct (press_alternative_cases letter s)
      as [->|(Hmain & Hin & Ha & q & Hq & _ & ->)]; [done|].
    apply main_question_screen in Hmain as [Hs Hf].
    rewrite Ha in Hlog. cbn [Nat.b2n] in Hlog. rewrite Nat.add_0_r in Hlog.
    cbn. split_and!; try done.
    + intros H. congruence.
    + rewrite fmap_app, Hlog. cbn.
      replace (current_question s + 1)%nat with (S (current_question s))
        by lia.
      by rewrite (take_S_r _ _ q).
    + apply Forall_app. split; [done|]. by apply Forall_singleton.
  - destruct (press_next_question_cases s)
      as [->|(Hmain & Ha & [q Hq] & ->)]; [done|].
    apply main_question_screen in Hmain as [Hs Hf].
    apply lookup_lt_Some in Hq.
    rewrite Ha in Hlog. cbn. split_and!; try done; try lia.
    + intros H. congruence.
    + by rewrite Nat.add_0_r.
  - destruct (press_restart_cases s) as [->| ->]; [done|].
    cbn. by split_and!.
Qed.

Lemma page_reachable_sound s :
  page_reachable s -> reachable s /\ page_sound s.
Proof.
  intros [ps ->]. unfold press_all.
  assert (reachable (initialize_session_state None) /\
          page_sound (initialize_session_state None)) as Hinit.
  { split; [by exists []|]. unfold page_sound. cbn. by split_and!. }
  revert Hinit. generalize (initialize_session_state None).
  induction ps as [|p ps IH]; intros s0 [Hr Hp]; cbn; [done|].
  apply IH. split; [by apply press_reachable|by apply press_page_sound].
Qed.

(** X11. In every session a user can bring about, the answer log follows
    the questions in order: its entries are about the questions before the
    position, and about the current one too once it is answered; every
    recorded letter is one of a, b, c, d; the position never passes the end;
    and on the results screen every question has exactly one entry. *)
Theorem answers_follow_questions s :
  page_reachable s ->
  question <$> user_answers s =
    take (current_question s + Nat.b2n (question_answered s)) (questions s) /\
  Forall (fun r => user_answer r ∈ letters) (user_answers s) /\
  (current_question s <= length (questions s))%nat /\
  (main s = FinalResults ->
   question <$> user_answers s = questions s /\
   current_question s = length (questions s)).
Proof.
  intros Hpage.
  destruct (page_reachable_sound s Hpage) as [Hreach (_ & Hle & Hlog & Hletters)].
  split_and!; try done.
  intros Hmain. apply main_final_results in Hmain as [Hs Hf].
  destruct (reachable_session_sound s Hreach) as (_ & _ & _ & Hfin & _).
  apply (Hfin Hs) in Hf. split; [|lia].
  rewrite Hlog. apply take_ge. lia.
Qed.

Lemma answers_follow_questions_witness :
  let s := press_all
    [PressStart (Sample.files (Table (Sample.bank 1 2 "a")) Absent) 10 Sample.env;
     PressAlternative "a"; PressNext; PressAlternative "d"; PressNext]
    Sample.fresh in
  question <$> user_answers s = questions s.
Proof.
  cbv zeta. eapply answers_follow_questions.
  - by eexists.
  - reflexivity.
Defined.

(** ** The results screen *)

Lemma getitem_alternatives q key :
  (key ∈ letters -> exists text, getitem (get_alternatives q) key = Rendered text) /\
  (key ∉ letters -> getitem (get_alternatives q) key = Stopped (KeyError key)).
Proof.
  unfold letters, get_alternatives. cbn [getitem].
  rewrite !elem_of_cons, elem_of_nil.
  repeat match goal with
  | |- context [String.eqb ?k key] =>
      destruct (String.eqb_spec k key);
        [split; [by eexists|intros H; destruct H; auto]|]
  end.
  split; [intros H; intuition congruence|done].
Qed.

Lemma review_rendered log :
  Forall (fun r => user_answer r ∈ letters /\ correct_answer r ∈ letters) log ->
  exists entries, review log = Rendered entries /\ length entries = length log.
Proof.
  induction 1 as [|r log [Hu Hc] _ (entries & IH & Hlen)]; [by exists []|].
  cbn [review]. unfold review_entry.
  destruct (proj1 (getitem_alternatives (question r) (user_answer r)) Hu)
    as [ut ->].
  destruct (proj1 (getitem_alternatives (question r) (correct_answer r)) Hc)
    as [ct ->].
  rewrite IH. eexists. split; [done|]. cbn. by rewrite Hlen.
Qed.

Lemma review_stopped log :
  Exists (fun r => user_answer r ∉ letters \/ correct_answer r ∉ letters) log ->
  exists key, review log = Stopped (KeyError key) /\ key ∉ letters.
Proof.
  induction log as [|r log IH]; intros Hex; [by apply Exists_nil in Hex|].
  cbn [review]. unfold review_entry.
  destruct (decide (user_answer r ∈ letters)) as [Hu|Hu].
  - destruct (proj1 (getitem_alternatives (question r) (user_answer r)) Hu)
      as [ut ->].
    destruct (decide (correct_answer r ∈ letters)) as [Hc|Hc].
    + destruct (proj1 (getitem_alternatives (question r) (correct_answer r)) Hc)
        as [ct ->].
      apply Exists_cons in Hex as [[?|?]|Hex]; [done|done|].
      destruct (IH Hex) as (key & -> & Hkey). by exists key.
    + rewrite (proj2 (getitem_alternatives (question r) (correct_answer r)) Hc).
      by eexists.
  - rewrite (proj2 (getitem_alternatives (question r) (user_answer r)) Hu).
    by eexists.
Qed.

Lemma reachable_log_consistent s : reachable s -> log_consistent s.
Proof.
  revert s. apply (reachable_ind log_consistent).
  - split; [done|constructor].
  - apply perform_log_consistent.
Qed.

(** X12. On the results screen of a session a user can bring about, the
    screen is drawn in full, with one review entry per question and the
    restart button, so that a press of it gives the fresh session, when
    the key of every question is one of a, b, c, d. If some question has
    another key (an upper-case letter, say) the review raises KeyError on a
    key that is none of the four, the restart button is never drawn, and
    the session stays where it is. *)
Theorem results_screen_and_keys s :
  page_reachable s -> main s = FinalResults ->
  (Forall (fun q => gabarito q ∈ letters) (questions s) ->
   exists page,
     show_final_results s = Rendered page /\
     length (results_review page) = length (questions s) /\
     results_corretas page = (correct_answers s, length (questions s)) /\
     press_restart s = initialize_session_state None) /\
  (~ Forall (fun q => gabarito q ∈ letters) (questions s) ->
   (exists key, show_final_results s = Stopped (KeyError key) /\ key ∉ letters) /\
   press_restart s = s).
Proof.
  intros Hpage Hmain.
  destruct (page_reachable_sound s Hpage) as [Hreach (_ & _ & Hlog & Hletters)].
  destruct (reachable_log_consistent s Hreach) as [_ Hsound].
  apply main_final_results in Hmain as Hsf. destruct Hsf as [Hs Hf].
  destruct (reachable_session_sound s Hreach) as (_ & _ & _ & Hfin & _).
  apply (Hfin Hs) in Hf as Hend.
  rewrite take_ge in Hlog by lia.
  assert (forall P : Question -> Prop,
    Forall P (questions s) <->
    Forall (fun r => P (question r)) (user_answers s)) as Hview.
  { intros P. by rewrite <-Hlog, Forall_fmap. }
  unfold press_restart, show_final_results. rewrite Hmain.
  destruct (evaluate_performance_session s Hreach)
    as (P & level & message & -> & _).
  split.
  - intros Hkeys. apply Hview in Hkeys.
    destruct (review_rendered (user_answers s)) as (entries & -> & Hlen).
    { rewrite Forall_forall in Hkeys, Hletters, Hsound. apply Forall_forall.
      intros r Hr. split; [by apply Hletters|].
      destruct (Hsound r Hr) as [_ ->]. by apply Hkeys. }
    eexists. split; [done|]. cbn.
    split_and!; try done. by rewrite Hlen, <-Hlog, length_fmap.
  - intros Hkeys.
    destruct (review_stopped (user_answers s)) as (key & -> & Hkey).
    { rewrite Hview in Hkeys. apply not_Forall_Exists in Hkeys; [|apply _].
      apply Exists_exists in Hkeys as (r & Hr & Hbad).
      apply Exists_exists. exists r. split; [done|]. right.
      rewrite Forall_forall in Hsound. by destruct (Hsound r Hr) as [_ ->]. }
    split; [by exists key|done].
Qed.

Lemma results_screen_and_keys_witness :
  (let s := press_all
     [PressStart (Sample.files (Table (Sample.bank 1 2 "a")) Absent) 10 Sample.env;
      PressAlternative "a"; PressNext; PressAlternative "d"; PressNext]
     Sample.fresh in
   press_restart s = Sample.fresh) /\
  (let s := press_all
     [PressStart Scenario.upper_case_key 10 Sample.env;
      PressAlternative "a"; PressNext; PressAlternative "b"; PressNext;
      PressAlternative "c"; PressNext]
     Sample.fresh in
   press_restart s = s).
Proof.
  cbv zeta. split.
  - match goal with |- press_restart ?s = _ =>
      destruct (results_screen_and_keys s) as [Hgood _]
    end.
    + by eexists.
    + reflexivity.
    + destruct Hgood as (page & _ & _ & _ & Hrestart); [|exact Hrestart].
      apply (bool_decide_unpack _). by vm_compute.
  - match goal with |- press_restart ?s = _ =>
      destruct (results_screen_and_keys s) as [_ Hbad]
    end.
    + by eexists.
    + reflexivity.
    + destruct Hbad as [_ Hstay]; [|exact Hstay].
      apply (bool_decide_unpack _). by vm_compute.
Defined.

(** ** Marks and styles *)

Lemma alternative_button_mark s q letter text a :
  question_answered s = true ->
  last_user_answer s = Some a ->
  last_answer_correct s = Some (String.eqb a (gabarito q)) ->
  let b := alternative_button s q (letter, text) in
  (button_mark b = Some "✅"%string <-> letter = gabarito q) /\
  (button_mark b = Some "❌"%string <-> letter = a /\ a <> gabarito q) /\
  (button_mark b = None <-> letter <> gabarito q /\ (letter <> a \/ a = gabarito q)) /\
  (button_type b = "primary"%string <-> letter = gabarito q).
Proof.
  intros Ha Hu Hc. unfold alternative_button. rewrite Ha, Hu, Hc.
  destruct (String.eqb_spec letter (gabarito q)) as [Hl|Hl].
  { cbn. split_and!; split; try done; intros H; try discriminate H.
    - destruct H as [-> H]. done.
    - destruct H as [H _]. done. }
  destruct (decide (letter = a)) as [->|Hne].
  - rewrite bool_decide_eq_true_2 by done.
    destruct (String.eqb_spec a (gabarito q)) as [|_]; [done|].
    rewrite bool_decide_eq_false_2 by discriminate.
    cbn. split_and!; split; try done; intros H; try discriminate H.
    destruct H as [_ [H|H]]; done.
  - rewrite bool_decide_eq_false_2 by congruence.
    cbn. split_and!; split; try done; intros H; try discriminate H.
    + by destruct H.
    + split; [done|by left].
Qed.

(** X13. Once the current question is answered, in a session a user can
    bring about, the answer given is one of the four letters on the
    buttons; the button of the key, and no other, carries the ✅ and is
    the primary one; the button of the answer given carries the ❌ exactly
    when that answer is wrong; and every button is disabled. *)
Theorem answer_marks s page :
  page_reachable s ->
  show_question_screen s = Rendered (Some page) ->
  question_answered s = true ->
  exists q a,
    questions s !! current_question s = Some q /\
    last_user_answer s = Some a /\ a ∈ letters /\
    Forall (fun b =>
      (button_mark b = Some "✅"%string <-> button_letter b = gabarito q) /\
      (button_mark b = Some "❌"%string <->
         button_letter b = a /\ a <> gabarito q) /\
      (button_type b = "primary"%string <-> button_letter b = gabarito q) /\
      button_disabled b = true) (page_alternatives page).
Proof.
  intros Hpage Hshow Ha.
  destruct (page_reachable_sound s Hpage) as [Hreach (_ & _ & _ & Hletters)].
  destruct (reachable_session_sound s Hreach) as (_ & _ & _ & _ & _ & Hans).
  destruct (Hans Ha) as (q & a & Hq & Hu & Hc & Hlast).
  apply show_question_screen_rendered in Hshow as (q' & Hq' & -> & _).
  assert (q' = q) as -> by congruence.
  exists q, a. split_and!; try done.
  - apply last_Some_elem_of in Hlast.
    by eapply Forall_forall in Hletters; [|exact Hlast].
  - apply Forall_fmap, Forall_forall. intros [letter text] _.
    unfold compose.
    destruct (alternative_button_mark s q letter text a Ha Hu Hc)
      as (H1 & H2 & _ & H4).
    destruct (alternative_button_fields s q letter text) as (-> & _ & _ & ->).
    by split_and!.
Qed.

Lemma answer_marks_witness :
  let s := press_all
    [PressStart (Sample.files (Table (Sample.bank 1 2 "a")) Absent) 10 Sample.env;
     PressAlternative "d"] Sample.fresh in
  exists a, last_user_answer s = Some a /\ a ∈ letters.
Proof.
  cbv zeta.
  match goal with |- context [last_user_answer ?s0] =>
    assert (exists page, show_question_screen s0 = Rendered (Some page))
      as [page Hshow] by (eexists; reflexivity);
    destruct (answer_marks s0 page) as (q & a & _ & Hu & Hin & _)
  end.
  - by eexists.
  - exact Hshow.
  - reflexivity.
  - exists a. split; [exact Hu|exact Hin].
Defined.

(** X14. A question whose key is none of a, b, c, d (an upper-case
    letter, say) cannot be answered correctly from the page: whatever
    button is pressed on it, the correct-count stays as it was. *)
Theorem unlisted_key_never_correct letter s q :
  questions s !! current_question s = Some q ->
  gabarito q ∉ letters ->
  correct_answers (press_alternative letter s) = correct_answers s.
Proof.
  intros Hq Hkey.
  destruct (press_alternative_cases letter s)
    as [->|(_ & Hin & _ & q' & Hq' & _ & ->)]; [done|].
  assert (q' = q) as -> by congruence. cbn.
  destruct (String.eqb_spec letter (gabarito q)) as [Heq|]; [|done].
  by rewrite Heq in Hin.
Qed.

Lemma unlisted_key_never_correct_witness :
  let s := press_all [PressStart Scenario.upper_case_key 10 Sample.env]
             Sample.fresh in
  (gabarito <$> questions s !! current_question s = Some "C"%string) /\
  correct_answers (press_alternative "c" s) = correct_answers s.
Proof.
  cbv zeta. split; [reflexivity|].
  eapply unlisted_key_never_correct; [reflexivity|].
  apply (bool_decide_unpack _). by vm_compute.
Defined.

(** X15. [get_button_style], which no screen calls, would pick the same
    buttons as the question screen does: in every session the handlers can
    produce it answers "success" exactly for the button that carries the
    ✅, "error" exactly for the one that carries the ❌, and "secondary"
    exactly for those without a mark. *)
Theorem button_style_agrees s q letter text ua :
  reachable s ->
  questions s !! current_question s = Some q ->
  (question_answered s = true -> last_user_answer s = Some ua) ->
  let b := alternative_button s q (letter, text) in
  let style := get_button_style letter q ua (question_answered s) in
  (style = "success"%string <-> button_mark b = Some "✅"%string) /\
  (style = "error"%string <-> button_mark b = Some "❌"%string) /\
  (style = "secondary"%string <-> button_mark b = None).
Proof.
  intros Hreach Hq Hua b style. subst b style.
  destruct (reachable_session_sound s Hreach) as (_ & _ & _ & _ & _ & Hans).
  destruct (question_answered s) eqn:Ha.
  - destruct (Hans eq_refl) as (q' & a & Hq' & Hu & Hc & _).
    assert (q' = q) as -> by congruence.
    assert (a = ua) as -> by (specialize (Hua eq_refl); congruence).
    destruct (alternative_button_mark s q letter text ua Ha Hu Hc)
      as (H1 & H2 & H3 & _).
    rewrite H1, H2, H3. unfold get_button_style. cbn [negb].
    destruct (String.eqb_spec letter (gabarito q)) as [Hl|Hl].
    { split_and!; split; try done; intros H; try discriminate H.
      - by destruct H as [-> ?].
      - by destruct H. }
    destruct (String.eqb_spec letter ua) as [->|Hne]; cbn [andb negb].
    + split_and!; split; try done; intros H; try discriminate H.
      destruct H as [_ [?|?]]; congruence.
    + split_and!; split; try done; intros H; try discriminate H.
      * by destruct H.
      * split; [done|by left].
  - unfold get_button_style, alternative_button. rewrite Ha. cbn.
    by split_and!.
Qed.

Lemma button_style_agrees_witness :
  let s := perform (AnswerQuestion "d") Sample.started in
  get_button_style "d" (Sample.q 2 "a") "d" (question_answered s)
    = "error"%string.
Proof.
  cbv zeta.
  apply (button_style_agrees (perform (AnswerQuestion "d") Sample.started)
           (Sample.q 2 "a") "d" "alternativa d" "d").
  - exists [StartQuiz (Sample.files (Table (Sample.bank 1 2 "a")) Absent) 10 Sample.env;
            AnswerQuestion "d"].
    reflexivity.
  - reflexivity.
  - reflexivity.
  - reflexivity.
Defined.
